(** * Verification of the train-cars listing endpoint and its client

    Shallow embedding of [getTrainCars] (src/src/api/train-cars.ts, also
    inlined in src/unnamed/part_000) and of the grouped branch of the
    browser-side [displayData] (src/unnamed/part_000); of the rest of the
    client in that file ([loadData], [updateStats], [nextPage],
    [getMarkVTooltipText]), of the worker entry point [fetch] with
    [addSecurityHeaders] (src/unnamed/part_001) and of the page assembly
    [getHTML] (src/src/frontend/loader.ts).

    JavaScript strings are modelled as [list ascii] (code units below 256);
    JavaScript numbers produced by [parseInt] as [jsnum]: [NaN] or an integer
    (the float rounding above 2^53 is not modelled). *)

From Stdlib Require Import ZArith Ascii String List Bool Lia Sorting.Sorted
  Sorting.Permutation.
From stdpp Require Import base numbers list gmap.
Import ListNotations.
Open Scope Z_scope.

Abbreviation jstr := (list ascii).

(** String literals of the source, as lists of code units. *)
Definition lit (s : string) : jstr := list_ascii_of_string s.

(** ** JavaScript primitives *)

(** A JavaScript number as produced by [parseInt]. *)
Inductive jsnum := NaN | Num (z : Z).

(** [Math.max(a, b)] and [Math.min(a, b)]: NaN if either argument is NaN. *)
Definition js_max (a b : jsnum) : jsnum :=
  match a, b with Num x, Num y => Num (Z.max x y) | _, _ => NaN end.
Definition js_min (a b : jsnum) : jsnum :=
  match a, b with Num x, Num y => Num (Z.min x y) | _, _ => NaN end.

(** [a || b] on a string: the empty string is falsy. *)
Definition str_or (a : option jstr) (dflt : jstr) : jstr :=
  match a with None | Some [] => dflt | Some s => s end.

(** StrWhiteSpaceChar restricted to code units below 256. *)
Definition is_js_space (c : ascii) : bool :=
  let n := nat_of_ascii c in
  ((9 <=? n) && (n <=? 13))%nat || (n =? 32)%nat || (n =? 160)%nat.

(** Value of a digit character in radix up to 36. *)
Definition digit_val (c : ascii) : option Z :=
  let n := Z.of_nat (nat_of_ascii c) in
  if (48 <=? n) && (n <=? 57) then Some (n - 48)
  else if (97 <=? n) && (n <=? 122) then Some (n - 87)
  else if (65 <=? n) && (n <=? 90) then Some (n - 55)
  else None.

Definition is_digit_in (radix : Z) (c : ascii) : bool :=
  match digit_val c with Some d => d <? radix | None => false end.

(** Longest prefix of digits, accumulated left to right. *)
Fixpoint parse_digits (radix : Z) (s : jstr) (acc : Z) : Z :=
  match s with
  | [] => acc
  | c :: s' =>
      match digit_val c with
      | Some d => if d <? radix then parse_digits radix s' (acc * radix + d) else acc
      | None => acc
      end
  end.

Fixpoint trim_start (s : jstr) : jstr :=
  match s with
  | c :: s' => if is_js_space c then trim_start s' else s
  | [] => []
  end.

(** [parseInt(s)] with the radix argument omitted (ECMA-262 21.1.2.13):
    leading white space, an optional sign, a ["0x"]/["0X"] prefix selecting
    radix 16, then the longest digit prefix; no digit at all gives NaN. *)
Definition parseInt (s : jstr) : jsnum :=
  let s1 := trim_start s in
  let '(sign, s2) :=
    match s1 with
    | "-"%char :: r => (-1, r)
    | "+"%char :: r => (1, r)
    | r => (1, r)
    end in
  let '(radix, s3) :=
    match s2 with
    | "0"%char :: "x"%char :: r => (16, r)
    | "0"%char :: "X"%char :: r => (16, r)
    | r => (10, r)
    end in
  match s3 with
  | c :: _ => if is_digit_in radix c then Num (sign * parse_digits radix s3 0) else NaN
  | [] => NaN
  end.

Definition digit_char (d : Z) : ascii := ascii_of_nat (Z.to_nat (48 + d)).

(** Decimal digits of a non-negative integer, most significant first. *)
Fixpoint dec_digits (fuel : nat) (n : Z) : jstr :=
  match fuel with
  | O => [digit_char (n mod 10)]
  | S f => if n <? 10 then [digit_char n] else dec_digits f (n / 10) ++ [digit_char (n mod 10)]
  end.

(** [String(n)] for an integer [n]. *)
Definition js_String (z : Z) : jstr :=
  if z <? 0 then "-"%char :: dec_digits (Z.to_nat (Z.log2 (- z))) (- z)
  else dec_digits (Z.to_nat (Z.log2 z)) z.

(** [s.padStart(n, '0')]: never truncates. *)
Definition padStart (s : jstr) (n : nat) : jstr :=
  repeat "0"%char (n - length s) ++ s.

(** PostgreSQL [LPAD(s, n, '0')]: truncates to [n] characters when longer. *)
Definition lpad (s : jstr) (n : nat) : jstr :=
  if (n <=? length s)%nat then firstn n s else repeat "0"%char (n - length s) ++ s.

(** ASCII lower-casing, used both for [toLowerCase] and for [ILIKE]. *)
Definition lower_char (c : ascii) : ascii :=
  let n := nat_of_ascii c in
  if ((65 <=? n) && (n <=? 90))%nat then ascii_of_nat (n + 32) else c.
Definition toLowerCase (s : jstr) : jstr := map lower_char s.

Fixpoint prefixb (t s : jstr) : bool :=
  match t, s with
  | [], _ => true
  | c :: t', d :: s' => Ascii.eqb c d && prefixb t' s'
  | _ :: _, [] => false
  end.

(** [s.includes(t)]. *)
Fixpoint includes (s t : jstr) : bool :=
  prefixb t s || match s with [] => false | _ :: s' => includes s' t end.

(** ** PostgreSQL pattern matching

    [s LIKE p]: ['%'] matches any sequence, ['_'] any single character and
    ['\'] makes the next character literal. The patterns built by the
    endpoint end in ['%'], so a pattern never ends in a lone escape. *)
Fixpoint like (p s : jstr) : bool :=
  match p with
  | [] => match s with [] => true | _ => false end
  | "%"%char :: p' =>
      (fix go (s : jstr) : bool :=
         like p' s || match s with [] => false | _ :: s' => go s' end) s
  | "_"%char :: p' => match s with [] => false | _ :: s' => like p' s' end
  | "\"%char :: c :: p' =>
      match s with [] => false | d :: s' => Ascii.eqb c d && like p' s' end
  | c :: p' => match s with [] => false | d :: s' => Ascii.eqb c d && like p' s' end
  end.

(** [s ILIKE p]: [LIKE] after lower-casing both sides. *)
Definition ilike (s p : jstr) : bool := like (toLowerCase p) (toLowerCase s).

(** [col ILIKE p] on a nullable column: NULL is never true in a WHERE. *)
Definition ilike_opt (s : option jstr) (p : jstr) : bool :=
  match s with Some s => ilike s p | None => false end.

(** ** Data model *)

(** A row of [train_cars] (alias [tc]). *)
Record tc_row := {
  tc_vehicle_id : Z;
  tc_name : option jstr;
  tc_status : jstr;
  tc_delivery_date : option jstr;
  tc_enter_service_date : option jstr;
  tc_batch_id : option Z;
  tc_notes : option jstr
}.

(** A row of [train_models] (alias [tm]). *)
Record tm_row := {
  tm_batch_id : Z;
  tm_common_name : option jstr;
  tm_manufacturer : option jstr;
  tm_manufacture_location : option jstr;
  tm_years_manufactured : option jstr;
  tm_full_name : option jstr
}.

(** The [TrainCar] interface of src/src/types (end of src/src/index.ts):
    one row of the listing query. *)
Record TrainCar := {
  vehicle_id : Z;
  name : option jstr;
  status : jstr;
  delivery_date : option jstr;
  enter_service_date : option jstr;
  batch_id : option Z;
  notes : option jstr;
  model_common_name : option jstr;
  manufacturer : option jstr;
  manufacture_location : option jstr;
  years_manufactured : option jstr;
  full_name : option jstr
}.

(** The [Marriage] interface: a row of [car_marriages]. *)
Record Marriage := {
  marriage_id : Z;
  marriage_batch_id : Z;
  cars : list Z;
  marriage_size : Z
}.

(** The [TrainCarsResponse] interface. *)
Record TrainCarsResponse := {
  data : list TrainCar;
  total : jsnum;
  limit : jsnum;
  offset : jsnum;
  lastUpdated : option jstr;
  marriages : option (list Marriage)
}.

(** The steps of a request that talk to the backing store. *)
Inductive step := Connect | DataQuery | CountQuery | LastUpdatedQuery | MarriagesQuery.

(** The backing store: the three tables, the value of
    [MAX(last_modified)] over [train_cars], and the error each step raises
    when it fails (a connection loss, a timeout, a missing table, ...). *)
Record Db := {
  train_cars : list tc_row;
  train_models : list tm_row;
  car_marriages : list Marriage;
  max_last_modified : option jstr;
  faults : step -> option jstr
}.

(** The query-string parameters read by the endpoint ([None]: absent). *)
Record Request := {
  q_search : option jstr;
  q_groupByMarriage : option jstr;
  q_limit : option jstr;
  q_offset : option jstr
}.

(** ** A small exception monad for the awaited calls *)

Inductive result (A : Type) := Ok (a : A) | Throw (e : jstr).
Arguments Ok {A} a.
Arguments Throw {A} e.

Definition bind {A B} (m : result A) (k : A -> result B) : result B :=
  match m with Ok a => k a | Throw e => Throw e end.

Notation "'let*' x := m 'in' k" := (bind m (fun x => k))
  (at level 200, x name, m at level 100, k at level 200).

(** ** The SQL queries *)

(** One joined row [tc LEFT JOIN tm]. *)
Definition join_row (tc : tc_row) (tm : option tm_row) : TrainCar :=
  let f (g : tm_row -> option jstr) := match tm with Some m => g m | None => None end in
  {| vehicle_id := tc_vehicle_id tc; name := tc_name tc; status := tc_status tc;
     delivery_date := tc_delivery_date tc;
     enter_service_date := tc_enter_service_date tc; batch_id := tc_batch_id tc;
     notes := tc_notes tc; model_common_name := f tm_common_name;
     manufacturer := f tm_manufacturer;
     manufacture_location := f tm_manufacture_location;
     years_manufactured := f tm_years_manufactured; full_name := f tm_full_name |}.

Definition batch_matches (tc : tc_row) (tm : tm_row) : bool :=
  match tc_batch_id tc with Some b => b =? tm_batch_id tm | None => false end.

(** [train_cars tc LEFT JOIN train_models tm ON tc.batch_id = tm.batch_id]. *)
Definition left_join (tcs : list tc_row) (tms : list tm_row) : list TrainCar :=
  flat_map (fun tc =>
    match List.filter (batch_matches tc) tms with
    | [] => [join_row tc None]
    | ms => map (fun tm => join_row tc (Some tm)) ms
    end) tcs.

(** The WHERE clause of the listing and count queries, with [$1 = p]. *)
Definition where_clause (p : jstr) (r : TrainCar) : bool :=
  ilike (lpad (js_String (vehicle_id r)) 3) p ||
  ilike (js_String (vehicle_id r)) p ||
  ilike_opt (name r) p ||
  ilike (status r) p ||
  ilike_opt (delivery_date r) p ||
  ilike_opt (enter_service_date r) p ||
  ilike_opt (notes r) p ||
  ilike_opt (model_common_name r) p.

(** [ORDER BY tc.vehicle_id] (insertion sort; [vehicle_id] is the key). *)
Fixpoint insert_by_id (r : TrainCar) (l : list TrainCar) : list TrainCar :=
  match l with
  | [] => [r]
  | r' :: l' => if vehicle_id r <=? vehicle_id r' then r :: l else r' :: insert_by_id r l'
  end.
Definition order_by_vehicle_id (l : list TrainCar) : list TrainCar :=
  fold_right insert_by_id [] l.

(** [ORDER BY marriage_id]. *)
Fixpoint insert_by_marriage_id (m : Marriage) (l : list Marriage) : list Marriage :=
  match l with
  | [] => [m]
  | m' :: l' =>
      if marriage_id m <=? marriage_id m' then m :: l else m' :: insert_by_marriage_id m l'
  end.
Definition order_by_marriage_id (l : list Marriage) : list Marriage :=
  fold_right insert_by_marriage_id [] l.

(** The rows a listing query selects before ORDER BY / LIMIT / OFFSET:
    [p] is the bound [$1] when the WHERE clause is present. *)
Definition selected_rows (db : Db) (p : option jstr) : list TrainCar :=
  let rows := left_join (train_cars db) (train_models db) in
  match p with Some p => List.filter (where_clause p) rows | None => rows end.

Definition step_guard (db : Db) (s : step) : result unit :=
  match faults db s with Some e => Throw e | None => Ok tt end.

(** A [LIMIT]/[OFFSET] parameter as node-postgres sends it: the number's
    [toString()]; PostgreSQL rejects ["NaN"] as a bigint and refuses
    negative values. *)
Definition bigint_param (n : jsnum) : result Z :=
  match n with
  | NaN => Throw (lit "invalid input syntax for type bigint: NaN")
  | Num z => Ok z
  end.

(** [client.query(query, queryParams)]: [page] is [Some (limit, offset)]
    when the query ends in [LIMIT $n OFFSET $n+1]. *)
Definition data_query (db : Db) (p : option jstr) (page : option (jsnum * jsnum))
  : result (list TrainCar) :=
  let* _ := step_guard db DataQuery in
  let rows := order_by_vehicle_id (selected_rows db p) in
  match page with
  | None => Ok rows
  | Some (l, o) =>
      let* l := bigint_param l in
      let* o := bigint_param o in
      if l <? 0 then Throw (lit "LIMIT must not be negative")
      else if o <? 0 then Throw (lit "OFFSET must not be negative")
      else Ok (firstn (Z.to_nat l) (skipn (Z.to_nat o) rows))
  end.

(** [client.query(countQuery, ...)]: the count is a bigint, which
    node-postgres hands back as its decimal string. Without the WHERE
    clause the count query reads [train_cars] alone. *)
Definition count_query (db : Db) (p : option jstr) : result jstr :=
  let* _ := step_guard db CountQuery in
  let n := match p with
           | Some _ => length (selected_rows db p)
           | None => length (train_cars db)
           end in
  Ok (js_String (Z.of_nat n)).

Definition last_updated_query (db : Db) : result (option jstr) :=
  let* _ := step_guard db LastUpdatedQuery in
  Ok (max_last_modified db).

Definition marriages_query (db : Db) : result (list Marriage) :=
  let* _ := step_guard db MarriagesQuery in
  Ok (order_by_marriage_id (car_marriages db)).

(** ** The endpoint *)

Definition opt_str_eqb (a : option jstr) (s : jstr) : bool :=
  match a with Some a => if List.list_eq_dec ascii_dec a s then true else false | None => false end.

Definition is_nonempty (s : jstr) : bool := match s with [] => false | _ => true end.

(** [searchParams.get("groupByMarriage") === "true"]. *)
Definition is_grouped (req : Request) : bool :=
  opt_str_eqb (q_groupByMarriage req) (lit "true").

(** [Math.min(Math.max(parseInt(searchParams.get("limit") || "50"), 1), 100)]. *)
Definition effective_limit (q : option jstr) : jsnum :=
  js_min (js_max (parseInt (str_or q (lit "50"))) (Num 1)) (Num 100).

(** [Math.max(parseInt(searchParams.get("offset") || "0"), 0)]. *)
Definition effective_offset (q : option jstr) : jsnum :=
  js_max (parseInt (str_or q (lit "0"))) (Num 0).

(** The bound [$1 = `%${search}%`], pushed only for a non-empty search. *)
Definition search_param (search : jstr) : option jstr :=
  if is_nonempty search then Some ("%"%char :: search ++ ["%"%char]) else None.

(** The [try] block of [getTrainCars], up to the JSON payload.  The four
    queries of [Promise.all] are all issued; the awaited result is the
    first failure in argument order, or all four results. *)
Definition getTrainCars_try (db : Db) (req : Request) : result TrainCarsResponse :=
  let* _ := step_guard db Connect in
  let search := str_or (q_search req) [] in
  let groupByMarriage := is_grouped req in
  let limit := effective_limit (q_limit req) in
  let offset := effective_offset (q_offset req) in
  let param := if negb groupByMarriage then search_param search else None in
  let page := if groupByMarriage then None else Some (limit, offset) in
  let* dataResult := data_query db param page in
  let* countResult := count_query db param in
  let* lastUpdatedResult := last_updated_query db in
  let* marriagesResult :=
    (if groupByMarriage then let* ms := marriages_query db in Ok (Some ms)
     else Ok None) in
  Ok {| data := dataResult;
        total := parseInt countResult;
        limit := limit;
        offset := offset;
        lastUpdated := match lastUpdatedResult with Some [] => None | v => v end;
        marriages := marriagesResult |}.

Inductive Response :=
  | Json200 (body : TrainCarsResponse)
  | JsonError (status : Z) (error : jstr).

(** The fixed message of the [catch] block. *)
Definition generic_error : jstr :=
  lit "An error occurred while fetching train cars data. Please try again later.".

(** [getTrainCars]: the response and the lines written by [console.error]. *)
Definition getTrainCars (db : Db) (req : Request) : Response * list (jstr * jstr) :=
  match getTrainCars_try db req with
  | Ok body => (Json200 body, [])
  | Throw e => (JsonError 500 generic_error, [(lit "Database error:", e)])
  end.

(** ** The client: [displayData] (src/unnamed/part_000) *)

Definition dq : ascii := ascii_of_nat 34.

(** The tooltip markup of a Mark V id. *)
Definition markV_cell (formattedId : jstr) : jstr :=
  lit "<span class=" ++ [dq] ++ lit "info-tooltip" ++ [dq] ++ lit ">" ++ formattedId ++
  lit "<span class=" ++ [dq] ++ lit "info-icon" ++ [dq] ++ lit " data-train-id=" ++ [dq] ++
  formattedId ++ [dq] ++ lit "><span class=" ++ [dq] ++ lit "tooltip-text" ++ [dq] ++
  lit "></span></span></span>".

(** The [vehicle_id] cell of a car row (grouped member rows, ungrouped
    rows and the detail overlay share this code):
    [isMarkV = value >= 6000 && value < 7000], the id padded to 4 or 3
    digits, wrapped in the tooltip markup when [isMarkV]. *)
Definition format_vehicle_id (value : Z) : jstr :=
  let isMarkV := (6000 <=? value) && (value <? 7000) in
  let formattedId := padStart (js_String value) (if isMarkV then 4%nat else 3%nat) in
  if isMarkV then markV_cell formattedId else formattedId.

(** [vehicleMap]: built by [data.forEach]; a later row with the same id
    overwrites an earlier one. *)
Definition build_vehicleMap (rows : list TrainCar) : gmap Z (TrainCar * nat) :=
  foldl (fun m '(i, r) => <[vehicle_id r := (r, i)]> m) ∅
        (zip (seq 0 (length rows)) rows).

(** [x?.toLowerCase().includes(searchTerm)]: undefined (falsy) on null. *)
Definition opt_includes (x : option jstr) (searchTerm : jstr) : bool :=
  match x with Some s => includes (toLowerCase s) searchTerm | None => false end.

(** The per-car predicate of the [marriages.filter] callback. *)
Definition car_matches (searchTerm : jstr) (carId : Z) (car : TrainCar) : bool :=
  let vehicleIdMatch := includes (padStart (js_String carId) 3) searchTerm ||
                        includes (js_String carId) searchTerm in
  vehicleIdMatch || opt_includes (name car) searchTerm ||
  includes (toLowerCase (status car)) searchTerm ||
  opt_includes (delivery_date car) searchTerm ||
  opt_includes (enter_service_date car) searchTerm ||
  opt_includes (notes car) searchTerm ||
  opt_includes (model_common_name car) searchTerm.

Definition member_matches (vm : gmap Z (TrainCar * nat)) (searchTerm : jstr) (carId : Z) : bool :=
  match vm !! carId with Some (car, _) => car_matches searchTerm carId car | None => false end.

(** The [marriages.filter] callback. *)
Definition keep_marriage (vm : gmap Z (TrainCar * nat)) (searchTerm : jstr) (m : Marriage) : bool :=
  if negb (is_nonempty searchTerm) then true
  else existsb (member_matches vm searchTerm) (cars m).

(** Each marriage paired with its position in [marriages]
    ([marriages.indexOf(marriage)] on distinct objects). *)
Definition indexed {A} (l : list A) : list (nat * A) := zip (seq 0 (length l)) l.

Definition availableMarriages (vm : gmap Z (TrainCar * nat)) (searchTerm : jstr)
    (ms : list Marriage) : list (nat * Marriage) :=
  List.filter (fun '(_, m) => keep_marriage vm searchTerm m) (indexed ms).

(** The table rows emitted in grouped mode. *)
Inductive RenderedRow :=
  | MarriageRow (marriageIndex : nat) (m : Marriage)
  | CarRow (marriageIndex : nat) (row : TrainCar) (index : nat).

Fixpoint mapM {A B} (f : A -> result B) (l : list A) : result (list B) :=
  match l with
  | [] => Ok []
  | x :: l' => let* y := f x in let* ys := mapM f l' in Ok (y :: ys)
  end.

(** [const { row, index } = vehicleMap[carId]] throws a TypeError when the
    id is not in the map. *)
Definition car_row (vm : gmap Z (TrainCar * nat)) (marriageIndex : nat) (carId : Z)
  : result RenderedRow :=
  match vm !! carId with
  | Some (row, index) => Ok (CarRow marriageIndex row index)
  | None => Throw (lit "TypeError: Cannot destructure undefined")
  end.

(** The body of [paginatedMarriages.forEach]: nothing for an empty
    marriage; [if (!firstMatchingCar) return] also skips the marriage when
    the first id found in the map is the falsy number 0; otherwise a
    header row and one row per id of [marriage.cars]. *)
Definition render_marriage (vm : gmap Z (TrainCar * nat)) (im : nat * Marriage)
  : result (list RenderedRow) :=
  let '(marriageIndex, marriage) := im in
  let carsInMarriage := cars marriage in
  match carsInMarriage with
  | [] => Ok []
  | _ =>
      match List.find (fun carId => bool_decide (is_Some (vm !! carId))) carsInMarriage with
      | None => Ok []
      | Some 0 => Ok []
      | Some _ =>
          let* rows := mapM (car_row vm marriageIndex) carsInMarriage in
          Ok (MarriageRow marriageIndex marriage :: rows)
      end
  end.

(** The grouped branch of [displayData]. [filteredMarriagesCount] is the
    value of that global before the call; the result is its value after
    the call, with the rows of the table body or the error thrown while
    rendering them. For empty [data], [displayData] shows the empty state
    and returns at once: no table rows, the count left as it was. Otherwise
    the count is assigned before the marriages are rendered, so it is kept
    when rendering throws. *)
Definition displayGrouped (rows : list TrainCar) (ms : list Marriage) (currentSearch : jstr)
    (currentPage pageSize : nat) (filteredMarriagesCount : nat) : nat * result (list RenderedRow) :=
  match rows with
  | [] => (filteredMarriagesCount, Ok [])
  | _ =>
      let vm := build_vehicleMap rows in
      let searchTerm := toLowerCase currentSearch in
      let avail := availableMarriages vm searchTerm ms in
      let start := (currentPage * pageSize)%nat in
      let paginated := firstn pageSize (skipn start avail) in
      (length avail, let* out := mapM (render_marriage vm) paginated in Ok (concat out))
  end.

(** ** Page assembly: [getHTML] (src/src/frontend/loader.ts) *)

Definition str_eqb (a b : jstr) : bool :=
  if List.list_eq_dec ascii_dec a b then true else false.

(** [s.startsWith(t)]. *)
Definition startsWith (s t : jstr) : bool := prefixb t s.

(** [s.indexOf(pattern)]: the first position where [pattern] occurs. *)
Fixpoint indexOf (s pattern : jstr) : option nat :=
  if prefixb pattern s then Some 0%nat
  else match s with
       | [] => None
       | _ :: s' => match indexOf s' pattern with Some i => Some (S i) | None => None end
       end.

(** GetSubstitution with no capture groups (ECMA-262 22.1.3.19.1): in the
    replacement, ["$$"] gives ["$"], ["$&"] the matched text, ["$`"] the
    text before the match and ["$'"] the text after it; any other ['$'] is
    kept as it is. *)
Fixpoint GetSubstitution (matched before after replacement : jstr) : jstr :=
  match replacement with
  | [] => []
  | "$"%char :: r =>
      match r with
      | [] => ["$"%char]
      | c :: r' =>
          if Ascii.eqb c "$"%char then "$"%char :: GetSubstitution matched before after r'
          else if Ascii.eqb c "&"%char then matched ++ GetSubstitution matched before after r'
          else if Ascii.eqb c "`"%char then before ++ GetSubstitution matched before after r'
          else if Ascii.eqb c "'"%char then after ++ GetSubstitution matched before after r'
          else "$"%char :: GetSubstitution matched before after r
      end
  | c :: r => c :: GetSubstitution matched before after r
  end.

(** [str.replace(pattern, replacement)] with a string pattern: only the
    first occurrence is replaced, and the replacement string goes through
    [GetSubstitution]. *)
Definition replace (str pattern replacement : jstr) : jstr :=
  match indexOf str pattern with
  | None => str
  | Some position =>
      let before := firstn position str in
      let after := skipn (position + length pattern) str in
      before ++ GetSubstitution pattern before after replacement ++ after
  end.

Definition link_tag : jstr :=
  lit "<link rel=" ++ [dq] ++ lit "stylesheet" ++ [dq] ++ lit " href=" ++ [dq] ++
  lit "/styles.css" ++ [dq] ++ lit ">".

Definition script_tag : jstr :=
  lit "<script src=" ++ [dq] ++ lit "/app.js" ++ [dq] ++ lit "></script>".

(** [getHTML]: the stylesheet link and then the script tag of the page are
    replaced by the inlined CSS and JavaScript. *)
Definition getHTML (htmlText cssText jsText : jstr) : jstr :=
  let html := replace htmlText link_tag (lit "<style>" ++ cssText ++ lit "</style>") in
  replace html script_tag (lit "<script>" ++ jsText ++ lit "</script>").

(** ** The worker entry point (src/unnamed/part_001) *)

(** A [Headers] object as its (name, value) entries. Names compare after
    ASCII lower-casing, as [Headers] does; iteration sorts the names, so
    the order of the entries is not observable. *)
Definition header_is (name : jstr) (h : jstr * jstr) : bool :=
  str_eqb (toLowerCase (fst h)) (toLowerCase name).

Fixpoint join_with (sep : jstr) (l : list jstr) : jstr :=
  match l with
  | [] => []
  | [x] => x
  | x :: l' => x ++ sep ++ join_with sep l'
  end.

(** [headers.get(name)]: null when absent, the values joined by [", "]. *)
Definition headers_get (hs : list (jstr * jstr)) (name : jstr) : option jstr :=
  match map snd (List.filter (header_is name) hs) with
  | [] => None
  | vs => Some (join_with (lit ", ") vs)
  end.

(** [headers.set(name, value)]: the entries of that name give way to one. *)
Definition headers_set (hs : list (jstr * jstr)) (name value : jstr) : list (jstr * jstr) :=
  List.filter (fun h => negb (header_is name h)) hs ++ [(toLowerCase name, value)].

(** The parts of the incoming [request] the worker reads: [url.pathname],
    [url.host], [url.searchParams] and the request headers. *)
Record HttpRequest := {
  url_pathname : jstr;
  url_host : jstr;
  url_searchParams : Request;
  req_headers : list (jstr * jstr)
}.

Inductive Body := JsonBody (r : Response) | TextBody (s : jstr).

Record HttpResponse := {
  r_status : Z;
  r_headers : list (jstr * jstr);
  r_body : Body
}.

(** [Response.json(body, { status })]: status 200 unless given. *)
Definition json_response (r : Response) : HttpResponse :=
  {| r_status := match r with Json200 _ => 200 | JsonError s _ => s end;
     r_headers := [(lit "content-type", lit "application/json")];
     r_body := JsonBody r |}.

(** [new Response(text, { headers: { "Content-Type": ct } })]. *)
Definition text_response (ct text : jstr) : HttpResponse :=
  {| r_status := 200; r_headers := [(lit "content-type", ct)]; r_body := TextBody text |}.

Definition addSecurityHeaders (response : HttpResponse) : HttpResponse :=
  let headers := r_headers response in
  let headers := headers_set headers (lit "X-Content-Type-Options") (lit "nosniff") in
  let headers := headers_set headers (lit "X-Frame-Options") (lit "DENY") in
  let headers := headers_set headers (lit "Referrer-Policy") (lit "strict-origin-when-cross-origin") in
  {| r_status := r_status response; r_headers := headers; r_body := r_body response |}.

(** [request.headers.get("Host") || url.host]. *)
Definition request_host (request : HttpRequest) : jstr :=
  str_or (headers_get (req_headers request) (lit "Host")) (url_host request).

Definition isDevelopment (host : jstr) : bool :=
  str_eqb host (lit "localhost") || startsWith host (lit "localhost:") ||
  str_eqb host (lit "127.0.0.1") || startsWith host (lit "127.0.0.1:") ||
  str_eqb host (lit "::1") || startsWith host (lit "[::1]:").

(** [hasInvalidOrigin || hasInvalidReferer]; an absent or empty header is
    falsy and so never invalid. *)
Definition api_rejected (request : HttpRequest) : bool :=
  let origin := headers_get (req_headers request) (lit "Origin") in
  let referer := headers_get (req_headers request) (lit "Referer") in
  let host := request_host request in
  let dev := isDevelopment host in
  let hasInvalidOrigin :=
    match origin with
    | None | Some [] => false
    | Some o =>
        if dev then negb (str_eqb o (lit "https://" ++ host)) && negb (str_eqb o (lit "http://" ++ host))
        else negb (str_eqb o (lit "https://" ++ host))
    end in
  let hasInvalidReferer :=
    match referer with
    | None | Some [] => false
    | Some r =>
        if dev then negb (startsWith r (lit "https://" ++ host ++ lit "/")) &&
                    negb (startsWith r (lit "http://" ++ host ++ lit "/"))
        else negb (startsWith r (lit "https://" ++ host ++ lit "/"))
    end in
  hasInvalidOrigin || hasInvalidReferer.

Definition unauthorized_error : jstr :=
  lit "Unauthorized: API can only be called from this website.".

(** The text assets imported by the loader. *)
Record Assets := { htmlText : jstr; cssText : jstr; jsText : jstr }.

(** The [fetch] handler of the worker. *)
Definition fetch (assets : Assets) (db : Db) (request : HttpRequest) : HttpResponse :=
  if str_eqb (url_pathname request) (lit "/api/train-cars") then
    if api_rejected request then
      addSecurityHeaders (json_response (JsonError 403 unauthorized_error))
    else addSecurityHeaders (json_response (fst (getTrainCars db (url_searchParams request))))
  else if str_eqb (url_pathname request) (lit "/styles.css") then
    addSecurityHeaders (text_response (lit "text/css; charset=utf-8") (cssText assets))
  else if str_eqb (url_pathname request) (lit "/app.js") then
    addSecurityHeaders (text_response (lit "application/javascript; charset=utf-8") (jsText assets))
  else
    addSecurityHeaders (text_response (lit "text/html; charset=utf-8")
                          (getHTML (htmlText assets) (cssText assets) (jsText assets))).

(** ** The request URL of [loadData] and its parsing by the worker *)

Definition pageSize : Z := 50.

(** The characters [encodeURIComponent] leaves as they are. *)
Definition is_unreserved (c : ascii) : bool :=
  let n := nat_of_ascii c in
  ((65 <=? n) && (n <=? 90))%nat || ((97 <=? n) && (n <=? 122))%nat ||
  ((48 <=? n) && (n <=? 57))%nat ||
  existsb (Ascii.eqb c) ["-"%char; "_"%char; "."%char; "!"%char; "~"%char; "*"%char;
                         "'"%char; "("%char; ")"%char].

(** The UTF-8 bytes of a code unit below 256. *)
Definition utf8_bytes (c : ascii) : list Z :=
  let n := Z.of_nat (nat_of_ascii c) in
  if n <? 128 then [n] else [192 + n / 64; 128 + n mod 64].

Definition hex_char (n : Z) : ascii :=
  if n <? 10 then digit_char n else ascii_of_nat (Z.to_nat (55 + n)).

Definition encode_char (c : ascii) : jstr :=
  if is_unreserved c then [c]
  else flat_map (fun b => ["%"%char; hex_char (b / 16); hex_char (b mod 16)]) (utf8_bytes c).

Definition encodeURIComponent (s : jstr) : jstr := flat_map encode_char s.

(** [`${groupByMarriage}`] for a boolean. *)
Definition js_bool_String (b : bool) : jstr := if b then lit "true" else lit "false".

(** The URL [loadData(page)] fetches. *)
Definition loadData_url (page : Z) (searchTerm : jstr) (groupByMarriage : bool) : jstr :=
  let offset := page * pageSize in
  lit "/api/train-cars?limit=" ++ js_String pageSize ++ lit "&offset=" ++ js_String offset ++
  lit "&search=" ++ encodeURIComponent searchTerm ++
  lit "&groupByMarriage=" ++ js_bool_String groupByMarriage.

Fixpoint take_until (c : ascii) (s : jstr) : jstr :=
  match s with [] => [] | d :: s' => if Ascii.eqb d c then [] else d :: take_until c s' end.

Fixpoint drop_through (c : ascii) (s : jstr) : option jstr :=
  match s with [] => None | d :: s' => if Ascii.eqb d c then Some s' else drop_through c s' end.

Definition is_tab_or_newline (c : ascii) : bool :=
  let n := nat_of_ascii c in (n =? 9)%nat || (n =? 10)%nat || (n =? 13)%nat.

(** The query of a URL as the URL parser reads it: tab and newline
    characters are dropped, the fragment starts at the first ['#'] and the
    query after the first ['?'] before it. The parser also percent-encodes
    some bytes of the query; [URLSearchParams] decodes them again, so that
    step is left out. *)
Definition url_query (url : jstr) : jstr :=
  match drop_through "?"%char (take_until "#"%char
          (List.filter (fun c => negb (is_tab_or_newline c)) url)) with
  | Some q => q
  | None => []
  end.

Fixpoint split_on (sep : ascii) (s : jstr) : list jstr :=
  match s with
  | [] => [[]]
  | c :: s' =>
      if Ascii.eqb c sep then [] :: split_on sep s'
      else match split_on sep s' with
           | [] => [[c]]
           | w :: ws => (c :: w) :: ws
           end
  end.

Fixpoint split_first (sep : ascii) (s : jstr) : jstr * option jstr :=
  match s with
  | [] => ([], None)
  | c :: s' =>
      if Ascii.eqb c sep then ([], Some s')
      else let '(a, b) := split_first sep s' in (c :: a, b)
  end.

Definition hex_val (b : Z) : option Z :=
  if (48 <=? b) && (b <=? 57) then Some (b - 48)
  else if (65 <=? b) && (b <=? 70) then Some (b - 55)
  else if (97 <=? b) && (b <=? 102) then Some (b - 87)
  else None.

(** Percent-decoding of bytes: ["%"] and two hex digits give one byte,
    any other ['%'] stays. *)
Fixpoint percent_decode (bs : list Z) : list Z :=
  match bs with
  | [] => []
  | b :: t =>
      if b =? 37 then
        match t with
        | h1 :: h2 :: r =>
            match hex_val h1, hex_val h2 with
            | Some x, Some y => (16 * x + y) :: percent_decode r
            | _, _ => 37 :: percent_decode t
            end
        | _ => 37 :: percent_decode t
        end
      else b :: percent_decode t
  end.

(** UTF-8 decoding into code units below 256; [None] when the text holds
    a code point above 255 (or U+FFFD for a malformed sequence), which the
    string model cannot hold. *)
Fixpoint utf8_decode (bs : list Z) : option jstr :=
  match bs with
  | [] => Some []
  | b :: bs' =>
      if b <? 128 then
        match utf8_decode bs' with
        | Some s => Some (ascii_of_nat (Z.to_nat b) :: s)
        | None => None
        end
      else if (194 <=? b) && (b <=? 195) then
        match bs' with
        | b2 :: bs'' =>
            if (128 <=? b2) && (b2 <? 192) then
              match utf8_decode bs'' with
              | Some s => Some (ascii_of_nat (Z.to_nat ((b - 192) * 64 + (b2 - 128))) :: s)
              | None => None
              end
            else None
        | [] => None
        end
      else None
  end.

(** A name or value of [application/x-www-form-urlencoded]: ['+'] is a
    space, then percent-decoding of the UTF-8 bytes, then UTF-8 decoding. *)
Definition form_decode (s : jstr) : option jstr :=
  utf8_decode (percent_decode (map (fun b => if b =? 43 then 32 else b) (flat_map utf8_bytes s))).

(** The name/value pairs of a query: split on ['&'] (empty pieces are
    skipped), then at the first ['=']. UTF-8 encodes no character below 128
    into bytes below 128, so splitting the characters is splitting the bytes. *)
Definition form_pairs (q : jstr) : list (option jstr * option jstr) :=
  map (fun piece =>
         let '(n, v) := split_first "="%char piece in
         (form_decode n, form_decode (match v with Some v => v | None => [] end)))
      (List.filter is_nonempty (split_on "&"%char q)).

(** [searchParams.get(name)]: [Some None] is null, [Some (Some v)] the
    first value of that name, [None] a value outside the string model. *)
Fixpoint params_get (ps : list (option jstr * option jstr)) (name : jstr) : option (option jstr) :=
  match ps with
  | [] => Some None
  | (n, v) :: ps' =>
      if match n with Some n => str_eqb n name | None => false end
      then match v with Some v => Some (Some v) | None => None end
      else params_get ps' name
  end.

(** The four parameters [getTrainCars] reads from [url.searchParams]. *)
Definition searchParams_of_url (url : jstr) : option Request :=
  let ps := form_pairs (url_query url) in
  match params_get ps (lit "search"), params_get ps (lit "groupByMarriage"),
        params_get ps (lit "limit"), params_get ps (lit "offset") with
  | Some s, Some g, Some l, Some o =>
      Some {| q_search := s; q_groupByMarriage := g; q_limit := l; q_offset := o |}
  | _, _, _, _ => None
  end.

(** ** What [loadData] shows for a response *)

Inductive View := TableView (json : TrainCarsResponse) | ErrorView (message : jstr).

(** [const json = await response.json(); if (!response.ok) throw new
    Error(json.error || 'Failed to fetch data')]; the [catch] shows the
    message. [None]: a body that is not JSON, whose parse error text is
    the engine's. *)
Definition loadData_view (response : HttpResponse) : option View :=
  match r_body response with
  | JsonBody (Json200 b) =>
      if (200 <=? r_status response) && (r_status response <=? 299) then Some (TableView b)
      else Some (ErrorView (lit "Failed to fetch data"))
  | JsonBody (JsonError _ e) =>
      if (200 <=? r_status response) && (r_status response <=? 299) then None
      else Some (ErrorView (str_or (Some e) (lit "Failed to fetch data")))
  | TextBody _ => None
  end.

(** ** [updateStats], [prevPage] and [nextPage] (src/unnamed/part_000) *)

Record Stats := {
  st_totalItems : Z;
  st_totalPages : Z;
  st_start : Z;
  st_end : Z;
  statsInfo : jstr;
  pageInfo : jstr;
  prevDisabled : bool;
  nextDisabled : bool
}.

(** [Math.ceil(a / b)] for integers and [b > 0]. *)
Definition ceil_div (a b : Z) : Z := - ((- a) / b).

Definition updateStats (groupByMarriage : bool) (marriages : option (list Marriage))
    (currentSearch : jstr) (filteredMarriagesCount totalRecords currentPage : Z) : Stats :=
  let totalItems :=
    match groupByMarriage, marriages with
    | true, Some ms =>
        if is_nonempty currentSearch then filteredMarriagesCount else Z.of_nat (length ms)
    | _, _ => totalRecords
    end in
  let totalPages := ceil_div totalItems pageSize in
  let start := currentPage * pageSize + 1 in
  let end_ := Z.min ((currentPage + 1) * pageSize) totalItems in
  let itemType := if groupByMarriage then lit "marriages" else lit "train cars" in
  {| st_totalItems := totalItems;
     st_totalPages := totalPages;
     st_start := start;
     st_end := end_;
     statsInfo :=
       if is_nonempty currentSearch
       then lit "Showing " ++ js_String totalItems ++ lit " " ++ itemType ++ lit " (filtered)"
       else lit "Showing " ++ js_String start ++ lit " to " ++ js_String end_ ++ lit " of " ++
            js_String totalItems ++ lit " " ++ itemType;
     pageInfo := lit "Page " ++ js_String (currentPage + 1) ++ lit " of " ++
                 js_String (if totalPages =? 0 then 1 else totalPages);
     prevDisabled := currentPage =? 0;
     nextDisabled := totalItems <=? end_ |}.

(** The page [nextPage] loads, if any. *)
Definition nextPage (groupByMarriage : bool) (marriages : option (list Marriage))
    (totalRecords currentPage : Z) : option Z :=
  let totalItems :=
    match groupByMarriage, marriages with
    | true, Some ms => Z.of_nat (length ms)
    | _, _ => totalRecords
    end in
  if (currentPage + 1) * pageSize <? totalItems then Some (currentPage + 1) else None.

(** [s[i]] on an array of strings: undefined outside the array. *)
Definition js_index (l : list jstr) (i : Z) : option jstr :=
  if 0 <=? i then nth_error l (Z.to_nat i) else None.

(** The [ordinal] helper of [updateStats]:
    [day + (s[(v - 20) % 10] || s[v] || s[0])] with [v = day % 100]. The
    day is the numeric text of [formatToParts], the decimal [String(day)]
    of the day number, so [%] reads that number and [+] appends to the text;
    [%] keeps the sign of the dividend ([Z.rem]). *)
Definition ordinal (day : Z) : jstr :=
  let s := [lit "th"; lit "st"; lit "nd"; lit "rd"] in
  let v := Z.rem day 100 in
  js_String day ++
  str_or (js_index s (Z.rem (v - 20) 10))
    (str_or (js_index s v) (match js_index s 0 with Some x => x | None => lit "undefined" end)).

(** ** [getMarkVTooltipText] (src/unnamed/part_000) *)

(** [String(n)] and [`${n}`] of a number. *)
Definition num_String (n : jsnum) : jstr :=
  match n with NaN => lit "NaN" | Num z => js_String z end.

Definition js_add (n : jsnum) (k : Z) : jsnum :=
  match n with NaN => NaN | Num z => Num (z + k) end.

Definition markV_tooltip_intro : jstr :=
  lit "Mark V trains have 5 cars with 4-digit IDs, but vehicle control computers (VCCs) treat them as 2-car pairs using 3-digit identifiers. Train ".

Definition getMarkVTooltipText (trainId : jstr) : jstr :=
  let trainNum := parseInt trainId in
  let vccPairNum := match trainNum with NaN => NaN | Num n => Num (n / 10) end in
  let isEven := match vccPairNum with NaN => false | Num x => Z.rem x 2 =? 0 end in
  let vccOdd := if isEven then js_add vccPairNum (-1) else vccPairNum in
  let vccEven := if isEven then vccPairNum else js_add vccPairNum 1 in
  let vehicle1 := num_String vccOdd ++ lit "1" in
  let vehicle2 := num_String vccEven ++ lit "2" in
  let vehicle3 := num_String vccEven ++ lit "3" in
  let vehicle4 := num_String vccEven ++ lit "4" in
  let vehicle5 := num_String vccEven ++ lit "5" in
  markV_tooltip_intro ++ trainId ++ lit " is part of VCC pair " ++ num_String vccOdd ++ lit "/" ++
  num_String vccEven ++ lit " and has cars " ++ vehicle1 ++ lit ", " ++ vehicle2 ++ lit ", " ++
  vehicle3 ++ lit ", " ++ vehicle4 ++ lit ", and " ++ vehicle5 ++ lit ".".

(** ** Auxiliary definitions for the statements *)

(** The rows of [train_cars] that the search filter of the endpoint
    selects (all of them for an empty search). *)
Definition car_selected (db : Db) (search : jstr) (tc : tc_row) : bool :=
  match search_param search with
  | Some p => where_clause p (join_row tc (List.find (batch_matches tc) (train_models db)))
  | None => true
  end.

(** The [data] and [marriages] fields of a successful [try] block. *)
Definition payload_of (r : result TrainCarsResponse) : result (list TrainCar * option (list Marriage)) :=
  let* b := r in Ok (data b, marriages b).

(** The payload of a grouped request: it mentions no request parameter. *)
Definition grouped_payload (db : Db) : result (list TrainCar * option (list Marriage)) :=
  let* _ := step_guard db Connect in
  let* d := data_query db None None in
  let* _ := count_query db None in
  let* _ := last_updated_query db in
  let* ms := marriages_query db in
  Ok (d, Some ms).

(** Identifiers of the SQL text of the endpoint, none of which may reach
    a client through an error body. *)
Definition sql_fragments : list jstr :=
  map lit ["SELECT"%string; "FROM"%string; "WHERE"%string; "ILIKE"%string; "LIMIT"%string; "OFFSET"%string; "LPAD"%string; "COUNT"%string;
           "train_cars"%string; "train_models"%string; "car_marriages"%string; "vehicle_id"%string; "batch_id"%string;
           "last_modified"%string; "Database error"%string].

(** A small sample database. *)
Definition mk_car (i : Z) (nm : option jstr) (b : option Z) : tc_row :=
  {| tc_vehicle_id := i; tc_name := nm; tc_status := lit "In Service";
     tc_delivery_date := None; tc_enter_service_date := None; tc_batch_id := b;
     tc_notes := None |}.

Definition mk_model (b : Z) (nm : jstr) : tm_row :=
  {| tm_batch_id := b; tm_common_name := Some nm; tm_manufacturer := None;
     tm_manufacture_location := None; tm_years_manufactured := None; tm_full_name := None |}.

Definition sample_db : Db :=
  {| train_cars := [mk_car 3 None (Some 2); mk_car 7 (Some (lit "Spirit")) (Some 1);
                    mk_car 601 None None; mk_car 6001 None (Some 1)];
     train_models := [mk_model 1 (lit "Mark I"); mk_model 2 (lit "Mark II")];
     car_marriages := [{| marriage_id := 2; marriage_batch_id := 1; cars := [7; 6001];
                          marriage_size := 2 |};
                       {| marriage_id := 1; marriage_batch_id := 2; cars := [3];
                          marriage_size := 1 |}];
     max_last_modified := Some (lit "2025-01-01");
     faults := fun _ => None |}.

Definition mk_request (search grp lim off : option jstr) : Request :=
  {| q_search := search; q_groupByMarriage := grp; q_limit := lim; q_offset := off |}.

(** A marriage without members. *)
Definition empty_marriage : Marriage :=
  {| marriage_id := 9; marriage_batch_id := 1; cars := []; marriage_size := 0 |}.

(** The request [getTrainCars] reads from the URL of [loadData(page)]. *)
Definition loadData_request (page : Z) (searchTerm : jstr) (groupByMarriage : bool) : Request :=
  {| q_search := Some searchTerm; q_groupByMarriage := Some (js_bool_String groupByMarriage);
     q_limit := Some (js_String pageSize); q_offset := Some (js_String (page * pageSize)) |}.

(** The English ordinal suffix of a day number. *)
Definition english_suffix (d : Z) : jstr :=
  if (11 <=? d mod 100) && (d mod 100 <=? 13) then lit "th"
  else if d mod 10 =? 1 then lit "st"
  else if d mod 10 =? 2 then lit "nd"
  else if d mod 10 =? 3 then lit "rd"
  else lit "th".

(** ['+'] read as a space, as the form decoding of [URLSearchParams] does. *)
Definition plus_to_space (b : Z) : Z := if b =? 43 then 32 else b.

(** The characters [encodeURIComponent] may output. *)
Definition url_char (c : ascii) : bool := is_unreserved c || Ascii.eqb c "%"%char.

(** Sample requests and a store whose every query fails. *)
Definition cross_site_request : HttpRequest :=
  {| url_pathname := lit "/api/train-cars"; url_host := lit "trains.example";
     url_searchParams := mk_request None None None None;
     req_headers := [(lit "Host", lit "trains.example"); (lit "Origin", lit "https://other.example")] |}.

Definition failing_db : Db :=
  {| train_cars := []; train_models := []; car_marriages := []; max_last_modified := None;
     faults := fun _ => Some (lit "connection refused") |}.


(** Orders on rows by [vehicle_id]. *)
Definition id_le (a b : TrainCar) : Prop := vehicle_id a <= vehicle_id b.
Definition id_lt (a b : TrainCar) : Prop := vehicle_id a < vehicle_id b.

(** Decimal digits and the number they denote. *)
Definition is_digit (d : Z) : Prop := 0 <= d < 10.

Definition digits_value (ds : list Z) (a : Z) : Z := fold_left (fun a d => a * 10 + d) ds a.

(** The joined row of a car when model batch ids are unique. *)
Definition model_of (tms : list tm_row) (tc : tc_row) : TrainCar :=
  join_row tc (List.find (batch_matches tc) tms).

(** The number of rows the count query reports. *)
Definition count_of (db : Db) (p : option jstr) : nat :=
  match p with Some _ => length (selected_rows db p) | None => length (train_cars db) end.

(** * Properties *)

(** ** ORDER BY: sortedness, permutation, uniqueness *)

Section Ordering.


Lemma insert_by_id_perm (r : TrainCar) (l : list TrainCar) :
  Permutation (insert_by_id r l) (r :: l).
Proof.
  induction l as [|r' l IH]; simpl; [constructor; constructor|].
  destruct (vehicle_id r <=? vehicle_id r'); [reflexivity|].
  rewrite IH. apply perm_swap.
Qed.

Lemma order_by_vehicle_id_perm (l : list TrainCar) :
  Permutation (order_by_vehicle_id l) l.
Proof.
  induction l as [|r l IH]; simpl; [constructor|].
  rewrite insert_by_id_perm, IH. reflexivity.
Qed.

Lemma insert_by_id_sorted (r : TrainCar) (l : list TrainCar) :
  Sorted id_le l -> Sorted id_le (insert_by_id r l).
Proof.
  induction 1 as [|r' l Hs IH Hhd]; simpl; [repeat constructor|].
  destruct (vehicle_id r <=? vehicle_id r') eqn:E.
  - constructor; [constructor; assumption|]. constructor. unfold id_le. lia.
  - constructor; [exact IH|].
    destruct l as [|r'' l]; simpl.
    + constructor. unfold id_le. lia.
    + inversion Hhd; subst.
      destruct (vehicle_id r <=? vehicle_id r''); constructor; unfold id_le in *; lia.
Qed.

Lemma order_by_vehicle_id_sorted (l : list TrainCar) : Sorted id_le (order_by_vehicle_id l).
Proof.
  induction l; simpl; [constructor|]. apply insert_by_id_sorted; assumption.
Qed.

Lemma sorted_nodup_strict (l : list TrainCar) :
  Sorted id_le l -> NoDup (map vehicle_id l) -> StronglySorted id_lt l.
Proof.
  intros Hs Hn. apply Sorted_StronglySorted in Hs;
    [|intros x y z; unfold id_le; lia].
  induction Hs as [|a l Hs IH Hall]; constructor.
  - apply IH. inversion Hn; assumption.
  - inversion Hn as [|? ? Hnin _]; subst.
    rewrite List.Forall_forall in *. intros x Hx. specialize (Hall x Hx).
    unfold id_le, id_lt in *.
    assert (vehicle_id a <> vehicle_id x); [|lia].
    intros E. apply Hnin. rewrite E. apply list_elem_of_In, in_map, Hx.
Qed.

(** Two strictly sorted permutations of each other are equal: the order
    selected by [ORDER BY] on a key column is unique. *)
Lemma strictly_sorted_perm_unique (l1 l2 : list TrainCar) :
  StronglySorted id_lt l1 -> StronglySorted id_lt l2 -> Permutation l1 l2 -> l1 = l2.
Proof.
  revert l2. induction l1 as [|a l1 IH]; intros l2 H1 H2 Hp.
  - symmetry. apply Permutation_nil. exact Hp.
  - destruct l2 as [|b l2]; [apply Permutation_sym, Permutation_nil in Hp; discriminate|].
    inversion H1 as [|? ? H1' Ha]; inversion H2 as [|? ? H2' Hb]; subst.
    assert (a = b) as ->.
    { destruct (Permutation_in a Hp (or_introl eq_refl)) as [E|Ha2]; [congruence|].
      destruct (Permutation_in b (Permutation_sym Hp) (or_introl eq_refl)) as [E|Hb1];
        [congruence|].
      rewrite List.Forall_forall in Ha, Hb.
      specialize (Ha b Hb1). specialize (Hb a Ha2). unfold id_lt in *. lia. }
    f_equal. apply IH; [assumption|assumption|].
    eapply Permutation_cons_inv; exact Hp.
Qed.

Lemma firstn_skipn_app {A} (n m : nat) (l : list A) :
  firstn n l ++ firstn m (skipn n l) = firstn (n + m) l.
Proof.
  revert l. induction n as [|n IH]; intros l; [reflexivity|].
  destruct l as [|x l]; simpl; [destruct m; reflexivity|]. f_equal. apply IH.
Qed.

Lemma in_firstn_in {A} (n : nat) (l : list A) (x : A) : In x (firstn n l) -> In x l.
Proof. intros H. rewrite <- (firstn_skipn n l). apply in_or_app. left. exact H. Qed.

Lemma in_skipn_in {A} (n : nat) (l : list A) (x : A) : In x (skipn n l) -> In x l.
Proof. intros H. rewrite <- (firstn_skipn n l). apply in_or_app. right. exact H. Qed.

Lemma strictly_sorted_firstn_skipn (n : nat) (l : list TrainCar) (x y : TrainCar) :
  StronglySorted id_lt l -> In x (firstn n l) -> In y (skipn n l) -> id_lt x y.
Proof.
  revert l. induction n as [|n IH]; intros l Hs Hx Hy; [destruct Hx|].
  destruct l as [|a l]; [destruct Hx|]. simpl in Hx, Hy.
  inversion Hs as [|? ? Hs' Ha]; subst.
  destruct Hx as [<-|Hx].
  - rewrite List.Forall_forall in Ha. apply Ha.
    rewrite <- (firstn_skipn n l). apply in_or_app. right. exact Hy.
  - eapply IH; eassumption.
Qed.

End Ordering.

(** ** [String] and [parseInt] on non-negative integers *)

Section Decimal.


Lemma digit_cases (d : Z) :
  is_digit d -> d = 0 \/ d = 1 \/ d = 2 \/ d = 3 \/ d = 4 \/ d = 5 \/ d = 6 \/ d = 7 \/ d = 8 \/ d = 9.
Proof. unfold is_digit. lia. Qed.

Lemma digit_val_char (d : Z) : is_digit d -> digit_val (digit_char d) = Some d.
Proof. intros H. destruct (digit_cases d H) as [->|[->|[->|[->|[->|[->|[->|[->|[->| ->]]]]]]]]]; reflexivity. Qed.

Lemma parse_digits_map (ds : list Z) (a : Z) :
  Forall is_digit ds -> parse_digits 10 (map digit_char ds) a = digits_value ds a.
Proof.
  intros H. revert a. induction H as [|d ds Hd _ IH]; intros a; [reflexivity|].
  simpl. rewrite (digit_val_char d Hd). unfold is_digit in Hd.
  replace (d <? 10) with true by (symmetry; apply Z.ltb_lt; lia). apply IH.
Qed.

Lemma dec_digits_spec (f : nat) (n : Z) :
  0 <= n < 10 ^ (Z.of_nat f + 1) ->
  exists ds, dec_digits f n = map digit_char ds /\ Forall is_digit ds /\ ds <> [] /\
             digits_value ds 0 = n.
Proof.
  revert n. induction f as [|f IH]; intros n Hn.
  - exists [n mod 10]. simpl in Hn. pose proof (Z.mod_pos_bound n 10).
    split; [reflexivity|]. split; [constructor; [unfold is_digit; lia|constructor]|].
    split; [discriminate|]. simpl. rewrite Z.mod_small; lia.
  - simpl. destruct (n <? 10) eqn:E.
    + apply Z.ltb_lt in E. exists [n]. split; [reflexivity|].
      split; [constructor; [unfold is_digit; lia|constructor]|]. split; [discriminate|].
      simpl. lia.
    + apply Z.ltb_ge in E.
      destruct (IH (n / 10)) as (ds & Hds & Hall & Hne & Hv).
      { split; [apply Z.div_pos; lia|].
        apply Z.div_lt_upper_bound; [lia|].
        replace (Z.of_nat (S f) + 1) with (Z.succ (Z.of_nat f + 1)) in Hn by lia.
        rewrite Z.pow_succ_r in Hn by lia. lia. }
      exists (ds ++ [n mod 10]). rewrite map_app, Hds. split; [reflexivity|].
      split; [apply Forall_app; split; [exact Hall|constructor; [unfold is_digit|constructor]]|].
      { pose proof (Z.mod_pos_bound n 10). lia. }
      split; [destruct ds; discriminate|].
      unfold digits_value in *. rewrite fold_left_app, Hv. simpl.
      pose proof (Z.div_mod n 10). lia.
Qed.

Lemma log2_decimal_bound (n : Z) : 0 <= n -> n < 10 ^ (Z.of_nat (Z.to_nat (Z.log2 n)) + 1).
Proof.
  intros Hn. rewrite Z2Nat.id by apply Z.log2_nonneg.
  destruct (Z.eq_dec n 0) as [->|Hn0]; [reflexivity|].
  destruct (Z.log2_spec n) as [_ H2]; [lia|].
  eapply Z.lt_le_trans; [exact H2|].
  apply Z.pow_le_mono_l. split; [lia|lia].
Qed.

Lemma js_String_nonneg (n : Z) :
  0 <= n ->
  exists ds, js_String n = map digit_char ds /\ Forall is_digit ds /\ ds <> [] /\
             digits_value ds 0 = n.
Proof.
  intros Hn. unfold js_String. replace (n <? 0) with false by (symmetry; apply Z.ltb_ge; lia).
  apply dec_digits_spec. split; [exact Hn|]. apply log2_decimal_bound, Hn.
Qed.

Ltac digit_subst d H :=
  destruct (digit_cases d H) as [->|[->|[->|[->|[->|[->|[->|[->|[->| ->]]]]]]]]].

(** [parseInt] on a non-empty string of decimal digits reads all of them
    (leading zeros included: ["0"] followed by a digit is no hex prefix). *)
Lemma parseInt_digits (ds : list Z) :
  Forall is_digit ds -> ds <> [] -> parseInt (map digit_char ds) = Num (digits_value ds 0).
Proof.
  intros Hall Hne. rewrite <- parse_digits_map by exact Hall.
  destruct ds as [|d1 ds]; [congruence|]. inversion Hall as [|? ? Hd1 Hrest]; subst.
  destruct (Z.eq_dec d1 0) as [->|Hnz].
  - destruct ds as [|d2 ds]; [reflexivity|].
    inversion Hrest as [|? ? Hd2 _]; subst.
    digit_subst d2 Hd2; cbn [map]; generalize (map digit_char ds); intros rest;
      cbv -[parse_digits]; destruct (parse_digits _ _ _); reflexivity.
  - digit_subst d1 Hd1; try congruence; cbn [map]; generalize (map digit_char ds); intros rest;
      cbv -[parse_digits]; destruct (parse_digits _ _ _); reflexivity.
Qed.

(** [parseInt(String(n)) = n] for every non-negative integer [n]. *)
Lemma parseInt_js_String (n : Z) : 0 <= n -> parseInt (js_String n) = Num n.
Proof.
  intros Hn. destruct (js_String_nonneg n Hn) as (ds & -> & Hall & Hne & Hv).
  rewrite parseInt_digits by assumption. rewrite Hv. reflexivity.
Qed.

End Decimal.

(** ** The listing and count queries *)

(** Case analysis on the awaited steps of [getTrainCars_try]. *)
Ltac split_binds H :=
  repeat match type of H with
  | context [faults ?db ?s] =>
      let E := fresh "E" in destruct (faults db s) eqn:E; simpl in H; try discriminate H
  | context [effective_limit ?q] =>
      let E := fresh "El" in destruct (effective_limit q) eqn:E; simpl in H; try discriminate H
  | context [effective_offset ?q] =>
      let E := fresh "Eo" in destruct (effective_offset q) eqn:E; simpl in H; try discriminate H
  | context [?a <? ?b] =>
      let E := fresh "E" in destruct (a <? b) eqn:E; simpl in H; try discriminate H
  end.

Section Queries.

Lemma filter_all_false {A} (p : A -> bool) (l : list A) :
  (forall x, In x l -> p x = false) -> List.filter p l = [].
Proof.
  induction l as [|x l IH]; intros H; simpl; [reflexivity|].
  rewrite (H x (or_introl eq_refl)). apply IH. intros y Hy. apply H. right. exact Hy.
Qed.

(** With [batch_id] a key of [train_models], the join finds at most one
    model per car. *)
Lemma filter_batch_unique (tc : tc_row) (tms : list tm_row) :
  NoDup (map tm_batch_id tms) ->
  List.filter (batch_matches tc) tms =
    match List.find (batch_matches tc) tms with Some m => [m] | None => [] end.
Proof.
  induction tms as [|m tms IH]; intros Hn; simpl; [reflexivity|].
  apply NoDup_cons in Hn as [Hnin Hn].
  destruct (batch_matches tc m) eqn:E; [|apply IH, Hn].
  f_equal. apply filter_all_false. intros m' Hm'.
  destruct (batch_matches tc m') eqn:E'; [|reflexivity].
  exfalso. apply Hnin. unfold batch_matches in E, E'.
  destruct (tc_batch_id tc); [|discriminate].
  apply Z.eqb_eq in E, E'. rewrite <- E, E'.
  apply list_elem_of_In, in_map, Hm'.
Qed.


Lemma left_join_unique (tcs : list tc_row) (tms : list tm_row) :
  NoDup (map tm_batch_id tms) -> left_join tcs tms = map (model_of tms) tcs.
Proof.
  intros Hn. induction tcs as [|tc tcs IH]; [reflexivity|].
  simpl. rewrite IH, filter_batch_unique by exact Hn. unfold model_of.
  destruct (List.find (batch_matches tc) tms); reflexivity.
Qed.

Lemma nodup_map_filter {A B} (f : A -> B) (p : A -> bool) (l : list A) :
  NoDup (map f l) -> NoDup (map f (List.filter p l)).
Proof.
  induction l as [|x l IH]; intros Hn; simpl; [constructor|].
  apply NoDup_cons in Hn as [Hnin Hn].
  destruct (p x); [|apply IH, Hn]. simpl. apply NoDup_cons. split; [|apply IH, Hn].
  intros Hin. apply Hnin. apply list_elem_of_In in Hin. apply list_elem_of_In.
  apply in_map_iff in Hin as (y & Hy & Hyin). apply filter_In in Hyin as [Hyin _].
  rewrite <- Hy. apply in_map, Hyin.
Qed.

Lemma selected_rows_nodup (db : Db) (p : option jstr) :
  NoDup (map tc_vehicle_id (train_cars db)) -> NoDup (map tm_batch_id (train_models db)) ->
  NoDup (map vehicle_id (selected_rows db p)).
Proof.
  intros Hc Hm. unfold selected_rows. rewrite left_join_unique by exact Hm.
  assert (Hj : NoDup (map vehicle_id (map (model_of (train_models db)) (train_cars db)))).
  { rewrite map_map. exact Hc. }
  destruct p; [apply nodup_map_filter, Hj|exact Hj].
Qed.

Lemma effective_limit_range (q : option jstr) (l : Z) :
  effective_limit q = Num l -> 1 <= l <= 100.
Proof.
  unfold effective_limit. destruct (parseInt _); simpl; intros H; inversion H. lia.
Qed.

Lemma effective_offset_range (q : option jstr) (o : Z) :
  effective_offset q = Num o -> 0 <= o.
Proof.
  unfold effective_offset. destruct (parseInt _); simpl; intros H; inversion H. lia.
Qed.


(** A successful ungrouped request: the page of the ordered selection,
    the count, and the clamped pagination values. *)
Lemma try_ungrouped (db : Db) (req : Request) (b : TrainCarsResponse) :
  is_grouped req = false -> getTrainCars_try db req = Ok b ->
  let p := search_param (str_or (q_search req) []) in
  exists l o, effective_limit (q_limit req) = Num l /\ effective_offset (q_offset req) = Num o /\
    limit b = Num l /\ offset b = Num o /\
    data b = firstn (Z.to_nat l) (skipn (Z.to_nat o) (order_by_vehicle_id (selected_rows db p))) /\
    total b = Num (Z.of_nat (count_of db p)) /\ marriages b = None.
Proof.
  intros Hg H p. unfold getTrainCars_try in H. rewrite Hg in H. cbv zeta in H.
  unfold bind, data_query, count_query, last_updated_query, bind, step_guard, bigint_param in H.
  simpl negb in H. fold p in H.
  split_binds H. inversion H; subst; clear H. simpl.
  exists z, z0. repeat split; try reflexivity.
  rewrite parseInt_js_String by lia. reflexivity.
Qed.

End Queries.

Section Endpoint.

Lemma strongly_sorted_firstn {A} (R : A -> A -> Prop) (n : nat) (l : list A) :
  StronglySorted R l -> StronglySorted R (firstn n l).
Proof.
  revert l. induction n as [|n IH]; intros l H; [constructor|].
  destruct l as [|x l]; [constructor|]. inversion H as [|? ? H' Hx]; subst. simpl.
  constructor; [apply IH, H'|]. rewrite List.Forall_forall in *. intros y Hy.
  apply Hx. rewrite <- (firstn_skipn n l). apply in_or_app. left. exact Hy.
Qed.

Lemma strongly_sorted_skipn {A} (R : A -> A -> Prop) (n : nat) (l : list A) :
  StronglySorted R l -> StronglySorted R (skipn n l).
Proof.
  revert l. induction n as [|n IH]; intros l H; [exact H|].
  destruct l as [|x l]; [constructor|]. inversion H; subst. apply IH. assumption.
Qed.

Lemma page_sorted (l o : nat) (rows : list TrainCar) :
  Sorted id_le (firstn l (skipn o (order_by_vehicle_id rows))).
Proof.
  apply StronglySorted_Sorted, strongly_sorted_firstn, strongly_sorted_skipn.
  apply Sorted_StronglySorted; [intros x y z; unfold id_le; lia|].
  apply order_by_vehicle_id_sorted.
Qed.

Lemma opt_str_eqb_spec (a : option jstr) (s : jstr) : opt_str_eqb a s = true <-> a = Some s.
Proof.
  unfold opt_str_eqb. destruct a as [a|]; [|split; discriminate].
  destruct (List.list_eq_dec ascii_dec a s) as [->|Hne]; [tauto|].
  split; [discriminate|]. intros H. inversion H. contradiction.
Qed.

(** A successful grouped request: every joined row and every marriage. *)
Lemma try_grouped (db : Db) (req : Request) :
  is_grouped req = true -> payload_of (getTrainCars_try db req) = grouped_payload db.
Proof.
  intros Hg. unfold getTrainCars_try, payload_of, grouped_payload. rewrite Hg. cbv zeta.
  unfold bind, data_query, count_query, last_updated_query, marriages_query, step_guard.
  simpl negb.
  destruct (faults db Connect); [reflexivity|].
  destruct (faults db DataQuery); [reflexivity|].
  destruct (faults db CountQuery); [reflexivity|].
  destruct (faults db LastUpdatedQuery); [reflexivity|].
  destruct (faults db MarriagesQuery); reflexivity.
Qed.

Lemma length_filter_map {A B} (p : B -> bool) (f : A -> B) (l : list A) :
  length (List.filter p (map f l)) = length (List.filter (fun x => p (f x)) l).
Proof. induction l as [|x l IH]; simpl; [reflexivity|]. destruct (p (f x)); simpl; lia. Qed.

(** C1 (evaluated at the failing input): a non-numeric [limit] is not
    clamped: the effective limit is NaN, and in ungrouped mode the listing
    query rejects it, so the endpoint answers 500. *)
Theorem limit_non_numeric_not_clamped (db : Db) (s o : option jstr) :
  effective_limit (Some (lit "abc")) = NaN /\
  fst (getTrainCars db {| q_search := s; q_groupByMarriage := None;
                           q_limit := Some (lit "abc"); q_offset := o |}) =
    JsonError 500 generic_error.
Proof.
  split; [reflexivity|].
  unfold getTrainCars, getTrainCars_try, data_query, step_guard, bind. cbv zeta.
  replace (effective_limit (Some (lit "abc"))) with NaN by reflexivity.
  simpl. destruct (faults db Connect); [reflexivity|].
  destruct (faults db DataQuery); reflexivity.
Qed.

(** C2: in ungrouped mode, [total] depends only on the search value and
    is the number of [train_cars] rows the filter selects. *)
Theorem total_independent_of_paging (db : Db) (r1 r2 : Request) (b1 b2 : TrainCarsResponse) :
  NoDup (map tm_batch_id (train_models db)) ->
  is_grouped r1 = false -> is_grouped r2 = false -> q_search r1 = q_search r2 ->
  getTrainCars_try db r1 = Ok b1 -> getTrainCars_try db r2 = Ok b2 ->
  total b1 = total b2 /\
  total b1 = Num (Z.of_nat (length (List.filter (car_selected db (str_or (q_search r1) []))
                                                (train_cars db)))).
Proof.
  intros Hk Hg1 Hg2 Hs H1 H2.
  destruct (try_ungrouped db r1 b1 Hg1 H1) as (l1 & o1 & _ & _ & _ & _ & _ & Ht1 & _).
  destruct (try_ungrouped db r2 b2 Hg2 H2) as (l2 & o2 & _ & _ & _ & _ & _ & Ht2 & _).
  rewrite Ht1, Ht2, Hs. split; [reflexivity|]. rewrite <- Hs.
  unfold count_of, car_selected, selected_rows.
  destruct (search_param (str_or (q_search r1) [])) as [p|].
  - rewrite left_join_unique by exact Hk. rewrite length_filter_map. reflexivity.
  - simpl. f_equal. f_equal. clear. induction (train_cars db); simpl; congruence.
Qed.

Lemma total_independent_of_paging_witness :
  exists b1 b2,
    getTrainCars_try sample_db (mk_request (Some (lit "Mark")) None (Some (lit "1")) None) = Ok b1 /\
    getTrainCars_try sample_db (mk_request (Some (lit "Mark")) None (Some (lit "2")) (Some (lit "1"))) = Ok b2 /\
    total b1 = total b2 /\
    total b1 = Num (Z.of_nat (length (List.filter (car_selected sample_db (lit "Mark"))
                                                 (train_cars sample_db)))).
Proof.
  do 2 eexists. split; [vm_compute; reflexivity|]. split; [vm_compute; reflexivity|].
  apply (total_independent_of_paging sample_db
           (mk_request (Some (lit "Mark")) None (Some (lit "1")) None)
           (mk_request (Some (lit "Mark")) None (Some (lit "2")) (Some (lit "1")))).
  - apply NoDup_ListNoDup. vm_compute. repeat constructor; simpl; intuition discriminate.
  - reflexivity.
  - reflexivity.
  - reflexivity.
  - vm_compute. reflexivity.
  - vm_compute. reflexivity.
Defined.

End Endpoint.

Section EndpointClaims.

Lemma try_grouped_ok (db : Db) (req : Request) (b : TrainCarsResponse) :
  is_grouped req = true -> getTrainCars_try db req = Ok b ->
  data b = order_by_vehicle_id (left_join (train_cars db) (train_models db)) /\
  marriages b = Some (order_by_marriage_id (car_marriages db)).
Proof.
  intros Hg H. pose proof (try_grouped db req Hg) as Hp. rewrite H in Hp.
  unfold payload_of, grouped_payload, bind, data_query, count_query, last_updated_query,
    marriages_query, step_guard, selected_rows in Hp.
  destruct (faults db Connect); [discriminate|].
  destruct (faults db DataQuery); [discriminate|].
  destruct (faults db CountQuery); [discriminate|].
  destruct (faults db LastUpdatedQuery); [discriminate|].
  destruct (faults db MarriagesQuery); [discriminate|].
  simpl in Hp. inversion Hp. split; reflexivity.
Qed.

Lemma try_ok_no_fault (db : Db) (req : Request) (b : TrainCarsResponse) (s : step) :
  getTrainCars_try db req = Ok b -> (s = MarriagesQuery -> is_grouped req = true) ->
  faults db s = None.
Proof.
  intros H Hm. unfold getTrainCars_try in H. cbv zeta in H.
  unfold bind, data_query, count_query, last_updated_query, marriages_query, step_guard,
    bigint_param in H.
  destruct (is_grouped req) eqn:G; simpl negb in H; split_binds H;
    destruct s; try assumption; try (specialize (Hm eq_refl); discriminate).
Qed.

(** When [s] is the only failing step and the limit and offset are numbers,
    the [try] block throws the error of [s]. *)
Lemma try_only_fault (db : Db) (req : Request) (s : step) (e : jstr) :
  faults db s = Some e -> (s = MarriagesQuery -> is_grouped req = true) ->
  (forall s', faults db s' <> None -> s' = s) ->
  effective_limit (q_limit req) <> NaN -> effective_offset (q_offset req) <> NaN ->
  getTrainCars_try db req = Throw e.
Proof.
  intros Hf Hm Honly Hl Ho.
  assert (Hn : forall s', s' <> s -> faults db s' = None).
  { intros s' Hne. destruct (faults db s') eqn:E; [|reflexivity].
    exfalso. apply Hne, Honly. congruence. }
  destruct (effective_limit (q_limit req)) as [|l] eqn:El; [congruence|].
  destruct (effective_offset (q_offset req)) as [|o] eqn:Eo; [congruence|].
  pose proof (effective_limit_range _ _ El). pose proof (effective_offset_range _ _ Eo).
  unfold getTrainCars_try. cbv zeta. rewrite El, Eo.
  unfold data_query, count_query, last_updated_query, marriages_query, step_guard, bigint_param, bind.
  destruct (is_grouped req) eqn:G; simpl negb;
    replace (l <? 0) with false by (symmetry; apply Z.ltb_ge; lia);
    replace (o <? 0) with false by (symmetry; apply Z.ltb_ge; lia);
    destruct s; rewrite ?Hf;
    rewrite ?(Hn Connect), ?(Hn DataQuery), ?(Hn CountQuery), ?(Hn LastUpdatedQuery),
      ?(Hn MarriagesQuery) by discriminate; try reflexivity.
  specialize (Hm eq_refl). congruence.
Qed.

(** C3 (evaluated at the failing input): the search value is spliced into
    an ILIKE pattern unescaped, so ['_'] matches any character: searching
    ["_"] returns rows none of whose searchable columns contains ["_"]. *)
Theorem search_underscore_matches_every_row :
  exists b, getTrainCars_try sample_db (mk_request (Some (lit "_")) None None None) = Ok b /\
    length (data b) = length (train_cars sample_db) /\
    Forall (fun r => car_matches (lit "_") (vehicle_id r) r = false) (data b).
Proof.
  eexists. split; [vm_compute; reflexivity|].
  vm_compute. split; [reflexivity|]. repeat constructor.
Qed.

(** C4: an ungrouped page has at most [limit] rows, in ascending
    [vehicle_id] order. *)
Theorem ungrouped_page_bounded_sorted (db : Db) (req : Request) (b : TrainCarsResponse) :
  is_grouped req = false -> getTrainCars_try db req = Ok b ->
  exists l, limit b = Num l /\ Z.of_nat (length (data b)) <= l /\ Sorted id_le (data b).
Proof.
  intros Hg H.
  destruct (try_ungrouped db req b Hg H) as (l & o & El & _ & Hl & _ & Hd & _).
  exists l. split; [exact Hl|]. pose proof (effective_limit_range _ _ El).
  rewrite Hd. split; [|apply page_sorted].
  rewrite length_firstn. lia.
Qed.

Lemma ungrouped_page_bounded_sorted_witness :
  is_grouped (mk_request None None (Some (lit "2")) (Some (lit "1"))) = false /\
  exists b, getTrainCars_try sample_db (mk_request None None (Some (lit "2")) (Some (lit "1"))) = Ok b /\
    exists l, limit b = Num l /\ Z.of_nat (length (data b)) <= l /\ Sorted id_le (data b).
Proof.
  split; [reflexivity|].
  eexists. split; [vm_compute; reflexivity|].
  apply (ungrouped_page_bounded_sorted sample_db
           (mk_request None None (Some (lit "2")) (Some (lit "1")))); [reflexivity|].
  vm_compute. reflexivity.
Defined.

(** C5: the pages [offset=0,limit=50] and [offset=50,limit=50] of one
    search are the first 100 selected rows in [vehicle_id] order, and every
    row of the first page precedes (so differs from) every row of the
    second. *)
Theorem consecutive_pages_concat (db : Db) (r1 r2 : Request) (b1 b2 : TrainCarsResponse)
    (L : list TrainCar) :
  NoDup (map tc_vehicle_id (train_cars db)) -> NoDup (map tm_batch_id (train_models db)) ->
  is_grouped r1 = false -> is_grouped r2 = false -> q_search r1 = q_search r2 ->
  q_limit r1 = Some (lit "50") -> q_offset r1 = Some (lit "0") ->
  q_limit r2 = Some (lit "50") -> q_offset r2 = Some (lit "50") ->
  getTrainCars_try db r1 = Ok b1 -> getTrainCars_try db r2 = Ok b2 ->
  StronglySorted id_lt L ->
  Permutation L (selected_rows db (search_param (str_or (q_search r1) []))) ->
  data b1 ++ data b2 = firstn 100 L /\
  (forall x y, In x (data b1) -> In y (data b2) -> vehicle_id x < vehicle_id y).
Proof.
  intros Hc Hm Hg1 Hg2 Hs Hl1 Ho1 Hl2 Ho2 H1 H2 HL Hp.
  destruct (try_ungrouped db r1 b1 Hg1 H1) as (l1 & o1 & El1 & Eo1 & _ & _ & Hd1 & _).
  destruct (try_ungrouped db r2 b2 Hg2 H2) as (l2 & o2 & El2 & Eo2 & _ & _ & Hd2 & _).
  rewrite Hl1 in El1. rewrite Ho1 in Eo1. rewrite Hl2 in El2. rewrite Ho2 in Eo2.
  vm_compute in El1, Eo1, El2, Eo2.
  inversion El1; inversion Eo1; inversion El2; inversion Eo2; subst.
  rewrite <- Hs in Hd2.
  set (rows := selected_rows db (search_param (str_or (q_search r1) []))) in *.
  assert (HO : order_by_vehicle_id rows = L).
  { apply strictly_sorted_perm_unique; [|exact HL|].
    - apply sorted_nodup_strict; [apply order_by_vehicle_id_sorted|].
      assert (Hperm : Permutation (map vehicle_id (order_by_vehicle_id rows))
                                  (map vehicle_id rows))
        by apply Permutation_map, order_by_vehicle_id_perm.
      rewrite Hperm. apply selected_rows_nodup; assumption.
    - rewrite order_by_vehicle_id_perm. apply Permutation_sym, Hp. }
  rewrite HO in Hd1, Hd2. rewrite Hd1, Hd2.
  change (Z.to_nat 50) with 50%nat. change (Z.to_nat 0) with 0%nat. rewrite skipn_0. split.
  - apply (firstn_skipn_app 50 50 L).
  - intros x y Hx Hy. apply (strictly_sorted_firstn_skipn 50 L x y HL); [exact Hx|].
    apply (in_firstn_in 50). exact Hy.
Qed.

Lemma consecutive_pages_concat_witness :
  exists b1 b2,
    getTrainCars_try sample_db (mk_request None None (Some (lit "50")) (Some (lit "0"))) = Ok b1 /\
    getTrainCars_try sample_db (mk_request None None (Some (lit "50")) (Some (lit "50"))) = Ok b2 /\
    data b1 ++ data b2 = firstn 100 (order_by_vehicle_id (selected_rows sample_db None)) /\
    (forall x y, In x (data b1) -> In y (data b2) -> vehicle_id x < vehicle_id y).
Proof.
  do 2 eexists. split; [vm_compute; reflexivity|]. split; [vm_compute; reflexivity|].
  apply (consecutive_pages_concat sample_db
           (mk_request None None (Some (lit "50")) (Some (lit "0")))
           (mk_request None None (Some (lit "50")) (Some (lit "50"))));
    try reflexivity.
  - apply NoDup_ListNoDup. vm_compute. repeat constructor; simpl; intuition discriminate.
  - apply NoDup_ListNoDup. vm_compute. repeat constructor; simpl; intuition discriminate.
  - vm_compute. repeat constructor.
Defined.

(** C6: in grouped mode, whether the request succeeds and the [data] and
    [marriages] it returns do not depend on the request beyond
    [groupByMarriage]: all joined rows ordered by [vehicle_id] and all
    marriages ordered by [marriage_id]. *)
Theorem grouped_payload_ignores_search (db : Db) (r1 r2 : Request) :
  is_grouped r1 = true -> is_grouped r2 = true ->
  payload_of (getTrainCars_try db r1) = payload_of (getTrainCars_try db r2) /\
  (forall b, getTrainCars_try db r1 = Ok b ->
     data b = order_by_vehicle_id (left_join (train_cars db) (train_models db)) /\
     marriages b = Some (order_by_marriage_id (car_marriages db))).
Proof.
  intros H1 H2. split.
  - rewrite (try_grouped db r1 H1), (try_grouped db r2 H2). reflexivity.
  - intros b Hb. apply (try_grouped_ok db r1 b H1 Hb).
Qed.

Lemma grouped_payload_ignores_search_witness :
  is_grouped (mk_request (Some (lit "601")) (Some (lit "true")) None None) = true /\
  is_grouped (mk_request (Some (lit "Mark")) (Some (lit "true")) (Some (lit "3")) None) = true /\
  payload_of (getTrainCars_try sample_db
                (mk_request (Some (lit "601")) (Some (lit "true")) None None)) =
  payload_of (getTrainCars_try sample_db
                (mk_request (Some (lit "Mark")) (Some (lit "true")) (Some (lit "3")) None)).
Proof.
  split; [reflexivity|]. split; [reflexivity|].
  apply (grouped_payload_ignores_search sample_db
           (mk_request (Some (lit "601")) (Some (lit "true")) None None)
           (mk_request (Some (lit "Mark")) (Some (lit "true")) (Some (lit "3")) None));
    reflexivity.
Defined.

(** C8: when a step that the request performs fails, the endpoint answers
    500 with the fixed message, which names no part of the SQL, and logs
    one line carrying the error the [try] block threw; when that step is
    the only failing one and the limit and offset are numbers, the logged
    error is the one the store raised. *)
Theorem store_failure_generic_500 (db : Db) (req : Request) (s : step) (e : jstr) :
  faults db s = Some e -> (s = MarriagesQuery -> is_grouped req = true) ->
  fst (getTrainCars db req) = JsonError 500 generic_error /\
  (exists e', getTrainCars_try db req = Throw e' /\
              snd (getTrainCars db req) = [(lit "Database error:", e')]) /\
  ((forall s', faults db s' <> None -> s' = s) ->
   effective_limit (q_limit req) <> NaN -> effective_offset (q_offset req) <> NaN ->
   snd (getTrainCars db req) = [(lit "Database error:", e)]) /\
  forallb (fun w => negb (includes generic_error w)) sql_fragments = true.
Proof.
  intros Hf Hs. split; [|split; [|split]]; [| | |vm_compute; reflexivity].
  - unfold getTrainCars. destruct (getTrainCars_try db req) eqn:E; [|reflexivity].
    pose proof (try_ok_no_fault db req _ s E Hs). congruence.
  - unfold getTrainCars. destruct (getTrainCars_try db req) as [b|e'] eqn:E.
    + pose proof (try_ok_no_fault db req b s E Hs). congruence.
    + exists e'. split; reflexivity.
  - intros Honly Hl Ho. unfold getTrainCars.
    rewrite (try_only_fault db req s e Hf Hs Honly Hl Ho). reflexivity.
Qed.

(** The store of [sample_db] with its count query failing. *)
Lemma store_failure_generic_500_witness :
  let db := {| train_cars := train_cars sample_db; train_models := train_models sample_db;
               car_marriages := car_marriages sample_db;
               max_last_modified := max_last_modified sample_db;
               faults := fun s => match s with
                                  | CountQuery => Some (lit "relation train_cars does not exist")
                                  | _ => None end |} in
  let req := mk_request (Some (lit "601")) None None None in
  fst (getTrainCars db req) = JsonError 500 generic_error /\
  snd (getTrainCars db req) = [(lit "Database error:", lit "relation train_cars does not exist")].
Proof.
  intros db req.
  destruct (store_failure_generic_500 db req CountQuery (lit "relation train_cars does not exist")
              eq_refl ltac:(discriminate)) as (H1 & _ & H3 & _).
  split; [exact H1|]. apply H3.
  - intros s' H. destruct s'; simpl in H; congruence.
  - vm_compute. discriminate.
  - vm_compute. discriminate.
Defined.

(** C10: a successful response carries a marriages array exactly when
    [groupByMarriage] is the string ["true"]. *)
Theorem marriages_present_iff_grouped (db : Db) (req : Request) (b : TrainCarsResponse) :
  getTrainCars_try db req = Ok b ->
  (marriages b <> None <-> q_groupByMarriage req = Some (lit "true")).
Proof.
  intros H. rewrite <- opt_str_eqb_spec. fold (is_grouped req).
  destruct (is_grouped req) eqn:G.
  - destruct (try_grouped_ok db req b G H) as [_ ->]. split; [reflexivity|discriminate].
  - destruct (try_ungrouped db req b G H) as (l & o & _ & _ & _ & _ & _ & _ & ->).
    split; [contradiction|discriminate].
Qed.

Lemma marriages_present_iff_grouped_witness :
  exists b, getTrainCars_try sample_db (mk_request None (Some (lit "TRUE")) None None) = Ok b /\
    (marriages b <> None <-> q_groupByMarriage (mk_request None (Some (lit "TRUE")) None None) =
                                Some (lit "true")).
Proof.
  eexists. split; [vm_compute; reflexivity|].
  apply (marriages_present_iff_grouped sample_db). vm_compute. reflexivity.
Defined.

End EndpointClaims.

(** ** The grouped view of the client *)

Section Client.

Lemma in_zip_seq {A} (l : list A) (s i : nat) (x : A) :
  In (i, x) (zip (seq s (length l)) l) <-> exists j, i = (s + j)%nat /\ l !! j = Some x.
Proof.
  revert s. induction l as [|y l IH]; intros s; simpl.
  - split; [intros []|intros (j & _ & H); discriminate].
  - rewrite IH. split.
    + intros [E|(j & -> & Hj)].
      * inversion E; subst. exists 0%nat. split; [lia|reflexivity].
      * exists (S j). split; [lia|exact Hj].
    + intros (j & -> & Hj). destruct j as [|j].
      * left. simpl in Hj. inversion Hj; subst. f_equal. lia.
      * right. exists j. split; [lia|exact Hj].
Qed.

Lemma in_indexed {A} (l : list A) (i : nat) (x : A) : In (i, x) (indexed l) <-> l !! i = Some x.
Proof.
  unfold indexed. rewrite in_zip_seq. split.
  - intros (j & -> & H). exact H.
  - intros H. exists i. split; [lia|exact H].
Qed.

Lemma in_availableMarriages (vm : gmap Z (TrainCar * nat)) (searchTerm : jstr)
    (ms : list Marriage) (i : nat) (m : Marriage) :
  In (i, m) (availableMarriages vm searchTerm ms) <->
  ms !! i = Some m /\ keep_marriage vm searchTerm m = true.
Proof. unfold availableMarriages. rewrite filter_In, in_indexed. reflexivity. Qed.

Lemma foldl_invariant {A B} (P : A -> Prop) (f : A -> B -> A) (l : list B) (a : A) :
  P a -> (forall a b, P a -> P (f a b)) -> P (foldl f a l).
Proof. revert a. induction l as [|b l IH]; intros a Ha Hf; simpl; [exact Ha|]. apply IH; auto. Qed.

(** Every entry of [vehicleMap] is stored under its own [vehicle_id]. *)
Lemma vehicleMap_key (rows : list TrainCar) (carId : Z) (row : TrainCar) (k : nat) :
  build_vehicleMap rows !! carId = Some (row, k) -> vehicle_id row = carId.
Proof.
  unfold build_vehicleMap. revert carId row k.
  apply (foldl_invariant (fun m : gmap Z (TrainCar * nat) =>
           forall carId row k, m !! carId = Some (row, k) -> vehicle_id row = carId)).
  - intros carId row k H. rewrite lookup_empty in H. discriminate.
  - intros m [i r] Hm carId row k H. apply lookup_insert_Some in H as [[<- E]|[_ H]].
    + inversion E; subst. reflexivity.
    + eapply Hm. exact H.
Qed.

Lemma mapM_ok {A B} (f : A -> result B) (l : list A) :
  (forall x, In x l -> exists y, f x = Ok y) ->
  exists ys, mapM f l = Ok ys /\ Forall2 (fun x y => f x = Ok y) l ys.
Proof.
  induction l as [|x l IH]; intros H; simpl; [exists []; split; constructor|].
  destruct (H x (or_introl eq_refl)) as [y Hy]. rewrite Hy. simpl.
  destruct IH as (ys & Hys & Hf); [intros z Hz; apply H; right; exact Hz|].
  rewrite Hys. exists (y :: ys). split; [reflexivity|constructor; assumption].
Qed.

Lemma forall2_in_l {A B} (R : A -> B -> Prop) (l : list A) (ys : list B) (x : A) :
  Forall2 R l ys -> In x l -> exists y, In y ys /\ R x y.
Proof.
  induction 1 as [|a b l ys Hab _ IH]; intros Hx; [destruct Hx|].
  destruct Hx as [<-|Hx].
  - exists b. split; [left; reflexivity|exact Hab].
  - destruct (IH Hx) as (y & Hy & Hr). exists y. split; [right; exact Hy|exact Hr].
Qed.

Lemma mapM_car_row (vm : gmap Z (TrainCar * nat)) (mi : nat) (cs : list Z) :
  (forall carId, In carId cs -> is_Some (vm !! carId)) ->
  exists rs, mapM (car_row vm mi) cs = Ok rs /\
    forall carId, In carId cs -> exists row k, vm !! carId = Some (row, k) /\ In (CarRow mi row k) rs.
Proof.
  intros H. destruct (mapM_ok (car_row vm mi) cs) as (rs & Hrs & Hf).
  - intros carId Hc. destruct (H carId Hc) as [[row k] E].
    exists (CarRow mi row k). unfold car_row. rewrite E. reflexivity.
  - exists rs. split; [exact Hrs|]. intros carId Hc.
    destruct (forall2_in_l _ _ _ _ Hf Hc) as (y & Hy & Hr).
    destruct (H carId Hc) as [[row k] E]. exists row, k. split; [exact E|].
    unfold car_row in Hr. rewrite E in Hr. inversion Hr; subst. exact Hy.
Qed.

(** A marriage whose ids are all in the map renders without error; unless
    its first id is 0, it renders a header and one row per id. *)
Lemma render_marriage_ok (vm : gmap Z (TrainCar * nat)) (mi : nat) (m : Marriage) :
  (forall carId, In carId (cars m) -> is_Some (vm !! carId)) ->
  exists rs, render_marriage vm (mi, m) = Ok rs /\
    (hd_error (cars m) <> Some 0 -> cars m <> [] ->
     In (MarriageRow mi m) rs /\
     forall carId, In carId (cars m) ->
       exists row k, vm !! carId = Some (row, k) /\ In (CarRow mi row k) rs).
Proof.
  intros H. unfold render_marriage.
  destruct (cars m) as [|c cs] eqn:Ec; [exists []; split; [reflexivity|congruence]|].
  assert (Hf : List.find (fun carId => bool_decide (is_Some (vm !! carId))) (c :: cs) = Some c).
  { simpl. rewrite bool_decide_eq_true_2; [reflexivity|]. apply H. left. reflexivity. }
  rewrite Hf. destruct (mapM_car_row vm mi (c :: cs) H) as (rs & Hrs & Hin).
  destruct c as [|p|p].
  - exists []. split; [reflexivity|]. simpl. congruence.
  - rewrite Hrs. simpl. exists (MarriageRow mi m :: rs). split; [reflexivity|].
    intros _ _. split; [left; reflexivity|]. intros carId Hc.
    destruct (Hin carId Hc) as (row & k & E & Hr). exists row, k. split; [exact E|right; exact Hr].
  - rewrite Hrs. simpl. exists (MarriageRow mi m :: rs). split; [reflexivity|].
    intros _ _. split; [left; reflexivity|]. intros carId Hc.
    destruct (Hin carId Hc) as (row & k & E & Hr). exists row, k. split; [exact E|right; exact Hr].
Qed.

(** On non-empty data, [displayGrouped] counts the kept marriages and
    renders the current page of them. *)
Lemma displayGrouped_nonempty (rows : list TrainCar) (ms : list Marriage) (currentSearch : jstr)
    (currentPage pageSize filteredMarriagesCount : nat) :
  rows <> [] ->
  let vm := build_vehicleMap rows in
  let avail := availableMarriages vm (toLowerCase currentSearch) ms in
  displayGrouped rows ms currentSearch currentPage pageSize filteredMarriagesCount =
    (length avail,
     let* out := mapM (render_marriage vm) (firstn pageSize (skipn (currentPage * pageSize) avail)) in
     Ok (concat out)).
Proof. destruct rows; [congruence|reflexivity]. Qed.

End Client.

Section ClientClaims.

(** C7 (counterexample): on non-empty data, with an empty search every
    marriage is kept and counted, also one none of whose members is in the
    data or matches (here, one with no member at all). *)
Lemma empty_search_keeps_unmatched_marriage :
  let rows := left_join (train_cars sample_db) (train_models sample_db) in
  rows <> [] /\
  In (0%nat, empty_marriage) (availableMarriages (build_vehicleMap rows) (toLowerCase []) [empty_marriage]) /\
  fst (displayGrouped rows [empty_marriage] [] 0 50 0) = 1%nat /\
  ~ (exists carId car k, In carId (cars empty_marriage) /\
       build_vehicleMap rows !! carId = Some (car, k) /\ car_matches (toLowerCase []) carId car = true).
Proof.
  intros rows. split; [discriminate|]. split; [left; reflexivity|]. split; [reflexivity|].
  intros (carId & car & k & [] & _).
Qed.

(** C7 (amended): for a non-empty search a marriage is kept exactly when
    one of its members found in [vehicleMap] matches the term; for the
    empty search every marriage is kept. When every member id of every
    marriage is in the data and the data is not empty, [displayData] sets
    the count to the number of kept marriages and a kept marriage on the
    current page renders its header (when it has members) and one row per
    member id (unless its first id is 0). *)
Theorem grouped_filter_and_render (rows : list TrainCar) (ms : list Marriage)
    (currentSearch : jstr) (currentPage pageSize filteredMarriagesCount i : nat) (m : Marriage) :
  let vm := build_vehicleMap rows in
  let searchTerm := toLowerCase currentSearch in
  let avail := availableMarriages vm searchTerm ms in
  (currentSearch <> [] ->
     (In (i, m) avail <->
      ms !! i = Some m /\
      exists carId car k, In carId (cars m) /\ vm !! carId = Some (car, k) /\
                          car_matches searchTerm carId car = true)) /\
  (currentSearch = [] -> (In (i, m) avail <-> ms !! i = Some m)) /\
  (rows <> [] ->
   (forall m' carId, In m' ms -> In carId (cars m') -> is_Some (vm !! carId)) ->
   In (i, m) (firstn pageSize (skipn (currentPage * pageSize) avail)) ->
   hd_error (cars m) <> Some 0 ->
   exists out,
     displayGrouped rows ms currentSearch currentPage pageSize filteredMarriagesCount =
       (length avail, Ok out) /\
     (cars m <> [] -> In (MarriageRow i m) out) /\
     forall carId, In carId (cars m) ->
       exists row k, vm !! carId = Some (row, k) /\ vehicle_id row = carId /\
                     In (CarRow i row k) out).
Proof.
  intros vm searchTerm avail. split; [|split].
  - intros Hne. unfold avail. rewrite in_availableMarriages. unfold keep_marriage.
    assert (Ht : is_nonempty searchTerm = true).
    { unfold searchTerm. destruct currentSearch; [congruence|reflexivity]. }
    rewrite Ht. simpl negb. rewrite existsb_exists. split.
    + intros [Hi (carId & Hc & Hm)]. split; [exact Hi|].
      unfold member_matches in Hm. destruct (vm !! carId) as [[car k]|] eqn:E; [|discriminate].
      exists carId, car, k. auto.
    + intros [Hi (carId & car & k & Hc & E & Hm)]. split; [exact Hi|].
      exists carId. split; [exact Hc|]. unfold member_matches. rewrite E. exact Hm.
  - intros ->. unfold avail. rewrite in_availableMarriages. unfold keep_marriage. simpl.
    tauto.
  - intros Hrows Hall Hpage H0.
    set (page := firstn pageSize (skipn (currentPage * pageSize) avail)) in *.
    assert (Hms : forall i' m', In (i', m') page -> In m' ms).
    { intros i' m' H. apply in_firstn_in, in_skipn_in in H.
      apply in_availableMarriages in H as [Hi _].
      apply list_elem_of_In. eapply list_elem_of_lookup_2. exact Hi. }
    destruct (mapM_ok (render_marriage vm) page) as (ys & Hys & Hf).
    { intros [i' m'] H. destruct (render_marriage_ok vm i' m') as (rs & Hr & _).
      - intros carId Hc. apply (Hall m'); [apply (Hms i' m' H)|exact Hc].
      - exists rs. exact Hr. }
    assert (Hdisp : displayGrouped rows ms currentSearch currentPage pageSize filteredMarriagesCount =
                    (length avail, let* out := mapM (render_marriage vm) page in Ok (concat out)))
      by (apply displayGrouped_nonempty; exact Hrows).
    exists (concat ys). rewrite Hdisp, Hys. split; [reflexivity|].
    destruct (forall2_in_l _ _ _ _ Hf Hpage) as (y & Hy & Hry).
    destruct (render_marriage_ok vm i m) as (rs & Hr & Hprops).
    { intros carId Hc. apply (Hall m); [apply (Hms i m Hpage)|exact Hc]. }
    rewrite Hr in Hry. inversion Hry; subst y.
    split.
    + intros Hne. apply in_concat. exists rs. split; [exact Hy|]. apply (Hprops H0 Hne).
    + intros carId Hc. assert (Hne : cars m <> []) by (destruct (cars m); [destruct Hc|discriminate]).
      destruct (proj2 (Hprops H0 Hne) carId Hc) as (row & k & E & Hin).
      exists row, k. split; [exact E|]. split; [apply (vehicleMap_key rows carId row k E)|].
      apply in_concat. exists rs. split; [exact Hy|exact Hin].
Qed.

Lemma grouped_filter_and_render_witness :
  exists out,
    displayGrouped (left_join (train_cars sample_db) (train_models sample_db))
                   (car_marriages sample_db) (lit "SPIRIT") 0 50 0 = (1%nat, Ok out) /\
    In (MarriageRow 0 (hd empty_marriage (car_marriages sample_db))) out.
Proof.
  destruct (proj2 (proj2 (grouped_filter_and_render
              (left_join (train_cars sample_db) (train_models sample_db))
              (car_marriages sample_db) (lit "SPIRIT") 0 50 0 0
              (hd empty_marriage (car_marriages sample_db)))))
    as (out & Hd & Hh & _).
  - discriminate.
  - intros m' carId Hm Hc. simpl in Hm.
    destruct Hm as [<-|[<-|[]]]; simpl in Hc;
      repeat destruct Hc as [<-|Hc]; try contradiction; vm_compute; eexists; reflexivity.
  - vm_compute. left. reflexivity.
  - vm_compute. discriminate.
  - exists out. split; [exact Hd|]. apply Hh. discriminate.
Defined.

Lemma markV_String_length (v : Z) : 6000 <= v <= 6999 -> length (js_String v) = 4%nat.
Proof.
  intros Hv.
  assert (Hall : forallb (fun k => Nat.eqb (length (js_String (6000 + Z.of_nat k))) 4)
                         (seq 0 1000) = true) by (vm_compute; reflexivity).
  rewrite forallb_forall in Hall. specialize (Hall (Z.to_nat (v - 6000))).
  rewrite Z2Nat.id in Hall by lia. replace (6000 + (v - 6000)) with v in Hall by lia.
  apply Nat.eqb_eq, Hall, in_seq. lia.
Qed.

Lemma short_String_length (v : Z) : 0 <= v < 1000 -> (length (js_String v) <= 3)%nat.
Proof.
  intros Hv.
  assert (Hall : forallb (fun k => Nat.leb (length (js_String (Z.of_nat k))) 3)
                         (seq 0 1000) = true) by (vm_compute; reflexivity).
  rewrite forallb_forall in Hall. specialize (Hall (Z.to_nat v)).
  rewrite Z2Nat.id in Hall by lia. apply Nat.leb_le, Hall, in_seq. lia.
Qed.

Lemma js_String_chars (v : Z) (c : ascii) :
  In c (js_String v) -> c = "-"%char \/ exists d, is_digit d /\ c = digit_char d.
Proof.
  destruct (v <? 0) eqn:E.
  - unfold js_String. rewrite E. apply Z.ltb_lt in E.
    destruct (dec_digits_spec (Z.to_nat (Z.log2 (- v))) (- v)) as (ds & Hds & Hall & _).
    { split; [lia|apply log2_decimal_bound; lia]. }
    rewrite Hds. intros [<-|Hc]; [left; reflexivity|right].
    apply in_map_iff in Hc as (d & <- & Hd). exists d. split; [|reflexivity].
    rewrite List.Forall_forall in Hall. apply Hall, Hd.
  - apply Z.ltb_ge in E. destruct (js_String_nonneg v E) as (ds & Hds & Hall & _).
    rewrite Hds; clear Hds.
    intros Hc. right. apply in_map_iff in Hc as (d & <- & Hd). exists d. split; [|reflexivity].
    rewrite List.Forall_forall in Hall. apply Hall, Hd.
Qed.

Lemma padStart_zeros (s : jstr) (n : nat) :
  padStart s n = map digit_char (repeat 0 (n - length s)) ++ s.
Proof. unfold padStart. f_equal. rewrite map_repeat. reflexivity. Qed.

Lemma digits_value_zeros (k : nat) (ds : list Z) :
  digits_value (repeat 0 k ++ ds) 0 = digits_value ds 0.
Proof.
  unfold digits_value. rewrite fold_left_app. f_equal.
  induction k as [|k IH]; [reflexivity|]. simpl. exact IH.
Qed.

(** C9: ids 6000..6999 are shown as their 4 digits inside the Mark V
    tooltip markup; every other id is its 3-padded decimal text with no
    markup at all (for 0..999 exactly 3 digits that read back as the id). *)
Theorem vehicle_id_cell_format (v : Z) :
  (6000 <= v <= 6999 ->
     format_vehicle_id v = markV_cell (js_String v) /\ length (js_String v) = 4%nat) /\
  (~ (6000 <= v <= 6999) ->
     format_vehicle_id v = padStart (js_String v) 3 /\
     ~ In "<"%char (format_vehicle_id v) /\
     (3 <= length (format_vehicle_id v))%nat /\
     (0 <= v < 1000 ->
        length (format_vehicle_id v) = 3%nat /\ parseInt (format_vehicle_id v) = Num v)).
Proof.
  split.
  - intros Hv. pose proof (markV_String_length v Hv) as Hl.
    unfold format_vehicle_id.
    replace ((6000 <=? v) && (v <? 7000)) with true
      by (symmetry; apply andb_true_intro; split; [apply Z.leb_le|apply Z.ltb_lt]; lia).
    split; [|exact Hl]. f_equal. unfold padStart. rewrite Hl. reflexivity.
  - intros Hv.
    assert (Hf : format_vehicle_id v = padStart (js_String v) 3).
    { unfold format_vehicle_id.
      replace ((6000 <=? v) && (v <? 7000)) with false; [reflexivity|].
      symmetry. apply andb_false_iff.
      destruct (Z.le_gt_cases 6000 v); [right; apply Z.ltb_ge; lia|left; apply Z.leb_gt; lia]. }
    rewrite Hf. split; [reflexivity|]. split; [|split].
    + unfold padStart. intros Hin. apply in_app_or in Hin as [Hin|Hin].
      * apply repeat_spec in Hin. discriminate.
      * apply js_String_chars in Hin as [E|(d & Hd & E)]; [discriminate|].
        pose proof (digit_val_char d Hd) as Hdv. rewrite <- E in Hdv. discriminate.
    + unfold padStart. rewrite length_app, repeat_length. lia.
    + intros Hs. pose proof (short_String_length v Hs) as Hl.
      split; [unfold padStart; rewrite length_app, repeat_length; lia|].
      destruct (js_String_nonneg v (proj1 Hs)) as (ds & Hds & Hall & Hne & Hval).
      rewrite padStart_zeros, Hds, <- map_app, parseInt_digits.
      * rewrite digits_value_zeros, Hval. reflexivity.
      * apply Forall_app. split; [|exact Hall].
        apply List.Forall_forall. intros d Hd. apply repeat_spec in Hd. subst. unfold is_digit. lia.
      * destruct ds; [congruence|]. destruct (repeat _ _); discriminate.
Qed.

Lemma vehicle_id_cell_format_witness :
  format_vehicle_id 6001 = markV_cell (lit "6001") /\ parseInt (format_vehicle_id 42) = Num 42.
Proof.
  split.
  - destruct (vehicle_id_cell_format 6001) as [H _].
    rewrite (proj1 (H ltac:(lia))). reflexivity.
  - destruct (vehicle_id_cell_format 42) as [_ H].
    apply (proj2 (proj2 (proj2 (proj2 (H ltac:(lia)))) ltac:(lia))).
Defined.

End ClientClaims.

(** * Further properties of the client *)

Lemma str_eqb_eq (a b : jstr) : str_eqb a b = true <-> a = b.
Proof.
  unfold str_eqb. destruct (List.list_eq_dec ascii_dec a b); split; congruence.
Qed.

Lemma str_eqb_refl (a : jstr) : str_eqb a a = true.
Proof. apply str_eqb_eq. reflexivity. Qed.

Lemma prefixb_app (t s : jstr) : prefixb t (t ++ s) = true.
Proof. induction t as [|c t IH]; [reflexivity|]. simpl. rewrite Ascii.eqb_refl, IH. reflexivity. Qed.


Section DayOrdinal.

(** X3 (updateStats): the [ordinal] helper gives every non-negative day number its
    English suffix. *)
Theorem ordinal_english_suffix (d : Z) :
  0 <= d -> ordinal d = js_String d ++ english_suffix d.
Proof.
  intros Hd. unfold ordinal. cbv zeta. f_equal.
  rewrite (Z.rem_mod_nonneg d 100) by lia.
  assert (Hs : english_suffix d = english_suffix (d mod 100)).
  { unfold english_suffix. rewrite Z.mod_mod by lia.
    rewrite (Z.mod_mod_divide d 100 10) by (exists 10; lia). reflexivity. }
  rewrite Hs. clear Hs. pose proof (Z.mod_pos_bound d 100 ltac:(lia)) as Hb.
  generalize dependent (d mod 100). intros v Hb.
  assert (Hall : forallb (fun k =>
            let v := Z.of_nat k in
            str_eqb
              (str_or (js_index [lit "th"; lit "st"; lit "nd"; lit "rd"] (Z.rem (v - 20) 10))
                 (str_or (js_index [lit "th"; lit "st"; lit "nd"; lit "rd"] v)
                    match js_index [lit "th"; lit "st"; lit "nd"; lit "rd"] 0 with
                    | Some x => x | None => lit "undefined" end))
              (english_suffix v)) (seq 0 100) = true) by (vm_compute; reflexivity).
  rewrite forallb_forall in Hall. specialize (Hall (Z.to_nat v)).
  rewrite Z2Nat.id in Hall by lia. apply str_eqb_eq, Hall, in_seq. lia.
Qed.

Lemma ordinal_english_suffix_witness :
  0 <= 22 /\ ordinal 22 = js_String 22 ++ english_suffix 22.
Proof. split; [lia|]. apply ordinal_english_suffix. lia. Defined.

End DayOrdinal.

Section MarkVTooltip.

(** X4 (getMarkVTooltipText): for a Mark V id [v] the tooltip of its cell (whose [data-train-id]
    is the 4-digit text of [v]) names a VCC pair [o]/[o+1] with [o] odd
    that contains [v / 10], and the cars [o]1 and [o+1]2 .. [o+1]5. *)
Theorem markV_tooltip_pair (v : Z) :
  6000 <= v <= 6999 ->
  exists o, Z.odd o = true /\ (v / 10 = o \/ v / 10 = o + 1) /\
    getMarkVTooltipText (padStart (js_String v) 4) =
      markV_tooltip_intro ++ padStart (js_String v) 4 ++ lit " is part of VCC pair " ++
      js_String o ++ lit "/" ++ js_String (o + 1) ++ lit " and has cars " ++
      js_String (10 * o + 1) ++ lit ", " ++ js_String (10 * (o + 1) + 2) ++ lit ", " ++
      js_String (10 * (o + 1) + 3) ++ lit ", " ++ js_String (10 * (o + 1) + 4) ++ lit ", and " ++
      js_String (10 * (o + 1) + 5) ++ lit ".".
Proof.
  intros Hv.
  assert (Hall : forallb (fun k =>
            let v := 6000 + Z.of_nat k in
            let o := if Z.even (v / 10) then v / 10 - 1 else v / 10 in
            Z.odd o && ((v / 10 =? o) || (v / 10 =? o + 1)) &&
            str_eqb (getMarkVTooltipText (padStart (js_String v) 4))
              (markV_tooltip_intro ++ padStart (js_String v) 4 ++ lit " is part of VCC pair " ++
               js_String o ++ lit "/" ++ js_String (o + 1) ++ lit " and has cars " ++
               js_String (10 * o + 1) ++ lit ", " ++ js_String (10 * (o + 1) + 2) ++ lit ", " ++
               js_String (10 * (o + 1) + 3) ++ lit ", " ++ js_String (10 * (o + 1) + 4) ++
               lit ", and " ++ js_String (10 * (o + 1) + 5) ++ lit "."))
            (seq 0 1000) = true) by (vm_compute; reflexivity).
  rewrite forallb_forall in Hall. specialize (Hall (Z.to_nat (v - 6000))).
  rewrite Z2Nat.id in Hall by lia. replace (6000 + (v - 6000)) with v in Hall by lia.
  cbv zeta in Hall. exists (if Z.even (v / 10) then v / 10 - 1 else v / 10).
  pose proof (Hall ltac:(apply in_seq; lia)) as H.
  apply andb_prop in H as [H H3]. apply andb_prop in H as [H1 H2].
  split; [exact H1|]. split; [|apply str_eqb_eq, H3].
  apply orb_prop in H2 as [H2|H2]; apply Z.eqb_eq in H2; auto.
Qed.

Lemma markV_tooltip_pair_witness :
  6000 <= 6012 <= 6999 /\
  exists o, Z.odd o = true /\ (6012 / 10 = o \/ 6012 / 10 = o + 1) /\
    getMarkVTooltipText (padStart (js_String 6012) 4) =
      markV_tooltip_intro ++ padStart (js_String 6012) 4 ++ lit " is part of VCC pair " ++
      js_String o ++ lit "/" ++ js_String (o + 1) ++ lit " and has cars " ++
      js_String (10 * o + 1) ++ lit ", " ++ js_String (10 * (o + 1) + 2) ++ lit ", " ++
      js_String (10 * (o + 1) + 3) ++ lit ", " ++ js_String (10 * (o + 1) + 4) ++ lit ", and " ++
      js_String (10 * (o + 1) + 5) ++ lit ".".
Proof. split; [lia|]. apply markV_tooltip_pair. lia. Defined.

End MarkVTooltip.

(** ** The map from vehicle id to row, and the car rows of the grouped table *)

Section VehicleMap.

Lemma build_vehicleMap_snoc (rows : list TrainCar) (x : TrainCar) :
  build_vehicleMap (rows ++ [x]) = <[vehicle_id x := (x, length rows)]> (build_vehicleMap rows).
Proof.
  unfold build_vehicleMap. rewrite length_app. simpl.
  rewrite seq_app. simpl. rewrite zip_with_app by (rewrite length_seq; reflexivity).
  rewrite foldl_app. reflexivity.
Qed.

Lemma vehicleMap_spec (rows : list TrainCar) (carId : Z) (row : TrainCar) (k : nat) :
  build_vehicleMap rows !! carId = Some (row, k) <->
  rows !! k = Some row /\ vehicle_id row = carId /\
  forall j r, (k < j)%nat -> rows !! j = Some r -> vehicle_id r <> carId.
Proof.
  revert carId row k. induction rows as [|x rows IH] using rev_ind; intros carId row k.
  - unfold build_vehicleMap. simpl. rewrite lookup_empty. split; [discriminate|].
    intros (H & _). rewrite lookup_nil in H. discriminate.
  - rewrite build_vehicleMap_snoc. rewrite lookup_insert_Some. rewrite IH. split.
    + intros [[<- E]|[Hne (H1 & H2 & H3)]].
      * inversion E; subst. split; [rewrite lookup_app_r, Nat.sub_diag by lia; reflexivity|].
        split; [reflexivity|]. intros j r Hj Hr.
        apply lookup_lt_Some in Hr. rewrite length_app in Hr. simpl in Hr. lia.
      * split; [rewrite lookup_app_l; [exact H1|eapply lookup_lt_Some; exact H1]|].
        split; [exact H2|]. intros j r Hj Hr.
        destruct (decide (j < length rows)%nat) as [Hl|Hl].
        -- rewrite lookup_app_l in Hr by exact Hl. eapply H3; eauto.
        -- pose proof (lookup_lt_Some _ _ _ Hr) as Hb. rewrite length_app in Hb. simpl in Hb.
           assert (j = length rows) as -> by lia.
           rewrite lookup_app_r, Nat.sub_diag in Hr by lia. simpl in Hr. inversion Hr; subst. congruence.
    + intros (H1 & H2 & H3).
      destruct (decide (vehicle_id x = carId)) as [Ex|Ex].
      * left. split; [exact Ex|].
        destruct (decide (k = length rows)) as [->|Hk].
        -- rewrite lookup_app_r, Nat.sub_diag in H1 by lia. simpl in H1. inversion H1; subst. reflexivity.
        -- exfalso. pose proof (lookup_lt_Some _ _ _ H1) as Hb. rewrite length_app in Hb. simpl in Hb.
           apply (H3 (length rows) x); [lia| |exact Ex].
           rewrite lookup_app_r, Nat.sub_diag by lia. reflexivity.
      * right. split; [exact Ex|].
        assert (Hk : (k < length rows)%nat).
        { pose proof (lookup_lt_Some _ _ _ H1) as Hb. rewrite length_app in Hb. simpl in Hb.
          destruct (decide (k = length rows)) as [->|]; [|lia].
          rewrite lookup_app_r, Nat.sub_diag in H1 by lia. simpl in H1. inversion H1; subst. congruence. }
        rewrite lookup_app_l in H1 by exact Hk. split; [exact H1|]. split; [exact H2|].
        intros j r Hj Hr. apply (H3 j r Hj). rewrite lookup_app_l; [exact Hr|eapply lookup_lt_Some; exact Hr].
Qed.

Lemma vehicleMap_none (rows : list TrainCar) (carId : Z) :
  build_vehicleMap rows !! carId = None <-> forall j r, rows !! j = Some r -> vehicle_id r <> carId.
Proof.
  induction rows as [|x rows IH] using rev_ind.
  - unfold build_vehicleMap. simpl. rewrite lookup_empty. split; [|reflexivity].
    intros _ j r H. rewrite lookup_nil in H. discriminate.
  - rewrite build_vehicleMap_snoc. rewrite lookup_insert_None, IH. split.
    + intros [H Hne] j r Hr. destruct (decide (j < length rows)%nat) as [Hl|Hl].
      * rewrite lookup_app_l in Hr by exact Hl. eapply H; eauto.
      * pose proof (lookup_lt_Some _ _ _ Hr) as Hb. rewrite length_app in Hb. simpl in Hb.
        assert (j = length rows) as -> by lia.
        rewrite lookup_app_r, Nat.sub_diag in Hr by lia. simpl in Hr. inversion Hr; subst. congruence.
    + intros H. split.
      * intros j r Hr. apply (H j r). rewrite lookup_app_l; [exact Hr|eapply lookup_lt_Some; exact Hr].
      * intros E. apply (H (length rows) x); [|exact E].
        rewrite lookup_app_r, Nat.sub_diag by lia. reflexivity.
Qed.

(** X1 (displayData): the map from vehicle id to row built by
    [displayData] holds, for each id, the last row of the listing with that
    id and its index, and has no entry for an id no row has. *)
Theorem vehicleMap_lookup (rows : list TrainCar) (carId : Z) :
  (forall row k, build_vehicleMap rows !! carId = Some (row, k) <->
     rows !! k = Some row /\ vehicle_id row = carId /\
     forall j r, (k < j)%nat -> rows !! j = Some r -> vehicle_id r <> carId) /\
  (build_vehicleMap rows !! carId = None <->
     forall j r, rows !! j = Some r -> vehicle_id r <> carId).
Proof. split; [intros row k; apply vehicleMap_spec|apply vehicleMap_none]. Qed.

Lemma mapM_forall2 {A B} (f : A -> result B) (l : list A) (ys : list B) :
  mapM f l = Ok ys -> Forall2 (fun x y => f x = Ok y) l ys.
Proof.
  revert ys. induction l as [|x l IH]; intros ys H; simpl in H.
  - inversion H. constructor.
  - destruct (f x) as [y|e] eqn:Ef; simpl in H; [|discriminate].
    destruct (mapM f l) as [ys'|e] eqn:El; simpl in H; [|discriminate].
    inversion H; subst. constructor; [exact Ef|apply IH; reflexivity].
Qed.

Lemma forall2_in_r {A B} (R : A -> B -> Prop) (l : list A) (ys : list B) (y : B) :
  Forall2 R l ys -> In y ys -> exists x, In x l /\ R x y.
Proof.
  induction 1 as [|a b l ys Hab _ IH]; intros Hy; [destruct Hy|].
  destruct Hy as [<-|Hy].
  - exists a. split; [left; reflexivity|exact Hab].
  - destruct (IH Hy) as (x & Hx & Hr). exists x. split; [right; exact Hx|exact Hr].
Qed.

Lemma render_marriage_car_row (vm : gmap Z (TrainCar * nat)) (i : nat) (m : Marriage)
    (rs : list RenderedRow) (mi : nat) (row : TrainCar) (k : nat) :
  render_marriage vm (i, m) = Ok rs -> In (CarRow mi row k) rs ->
  mi = i /\ exists carId, In carId (cars m) /\ vm !! carId = Some (row, k).
Proof.
  unfold render_marriage. intros H Hin.
  destruct (cars m) as [|c cs] eqn:Ec; [inversion H; subst; destruct Hin|].
  destruct (List.find _ (c :: cs)) as [[|p|p]|]; try (inversion H; subst; destruct Hin).
  all: destruct (mapM (car_row vm i) (c :: cs)) as [ys|e] eqn:Em; simpl in H; [|discriminate].
  all: inversion H; subst rs; destruct Hin as [Hin|Hin]; [discriminate|].
  all: destruct (forall2_in_r _ _ _ _ (mapM_forall2 _ _ _ Em) Hin) as (carId & Hc & Hr).
  all: unfold car_row in Hr; destruct (vm !! carId) as [[r j]|] eqn:E; [|discriminate].
  all: inversion Hr; subst; split; [reflexivity|exists carId; split; [exact Hc|exact E]].
Qed.

(** X2 (displayData, openModal): every car row of the grouped table
    stands for a row of the listing, the last one with its vehicle id, and
    for a car of a marriage kept by the search filter, so that clicking it
    opens the modal on that row. *)
Theorem grouped_car_row_opens_its_row (rows : list TrainCar) (ms : list Marriage)
    (currentSearch : jstr) (currentPage pageSize filteredMarriagesCount n : nat)
    (out : list RenderedRow) (mi : nat) (row : TrainCar) (k : nat) :
  displayGrouped rows ms currentSearch currentPage pageSize filteredMarriagesCount = (n, Ok out) ->
  In (CarRow mi row k) out ->
  rows !! k = Some row /\
  (forall j r, (k < j)%nat -> rows !! j = Some r -> vehicle_id r <> vehicle_id row) /\
  exists m, ms !! mi = Some m /\ In (vehicle_id row) (cars m) /\
            keep_marriage (build_vehicleMap rows) (toLowerCase currentSearch) m = true.
Proof.
  intros H Hin. destruct rows as [|r0 rows0].
  { inversion H; subst out. destruct Hin. }
  set (rows := r0 :: rows0) in *.
  rewrite displayGrouped_nonempty in H by discriminate.
  destruct (mapM _ _) as [outs|e] eqn:Em; cbn [bind] in H; inversion H; subst n out. apply in_concat in Hin as (rs & Hrs & Hin).
  destruct (forall2_in_r _ _ _ _ (mapM_forall2 _ _ _ Em) Hrs) as ([i m] & Hp & Hr).
  apply in_firstn_in, in_skipn_in, in_availableMarriages in Hp as [Hm Hk].
  destruct (render_marriage_car_row _ _ _ _ _ _ _ Hr Hin) as (-> & carId & Hc & E).
  apply vehicleMap_spec in E as (E1 & E2 & E3). subst carId.
  split; [exact E1|]. split; [exact E3|]. exists m. auto.
Qed.

Lemma grouped_car_row_opens_its_row_witness :
  exists n out mi row k,
    displayGrouped (left_join (train_cars sample_db) (train_models sample_db))
                   (car_marriages sample_db) (lit "SPIRIT") 0 50 0 = (n, Ok out) /\
    In (CarRow mi row k) out /\
    ((left_join (train_cars sample_db) (train_models sample_db)) !! k = Some row /\
     (forall j r, (k < j)%nat -> (left_join (train_cars sample_db) (train_models sample_db)) !! j = Some r ->
                  vehicle_id r <> vehicle_id row) /\
     exists m, car_marriages sample_db !! mi = Some m /\ In (vehicle_id row) (cars m) /\
       keep_marriage (build_vehicleMap (left_join (train_cars sample_db) (train_models sample_db)))
                     (toLowerCase (lit "SPIRIT")) m = true).
Proof.
  do 5 eexists.
  match goal with |- ?A /\ ?B /\ _ =>
    assert (HA : A) by reflexivity; assert (HB : B) by (simpl; right; left; reflexivity);
    exact (conj HA (conj HB (grouped_car_row_opens_its_row _ _ _ _ _ _ _ _ _ _ _ HA HB)))
  end.
Defined.

End VehicleMap.

(** ** The request URL of [loadData] read back by the worker *)

Section RequestUrl.

Lemma encode_char_decode (c : ascii) (rest : list Z) :
  percent_decode (map plus_to_space (flat_map utf8_bytes (encode_char c)) ++ rest) =
  utf8_bytes c ++ percent_decode rest.
Proof. destruct c as [[] [] [] [] [] [] [] []]; cbn; reflexivity. Qed.

Lemma utf8_decode_char (c : ascii) (rest : list Z) :
  utf8_decode (utf8_bytes c ++ rest) =
  match utf8_decode rest with Some s => Some (c :: s) | None => None end.
Proof. destruct c as [[] [] [] [] [] [] [] []]; cbn; reflexivity. Qed.

Lemma form_decode_encodeURIComponent (s : jstr) : form_decode (encodeURIComponent s) = Some s.
Proof.
  unfold form_decode.
  assert (H : percent_decode (map (fun b => if b =? 43 then 32 else b)
                (flat_map utf8_bytes (encodeURIComponent s))) = flat_map utf8_bytes s).
  { induction s as [|c s IH]; [reflexivity|].
    unfold encodeURIComponent. simpl flat_map at 1. rewrite flat_map_app, map_app.
    change (fun b => if b =? 43 then 32 else b) with plus_to_space in *.
    rewrite encode_char_decode. simpl. f_equal. exact IH. }
  rewrite H. clear H. induction s as [|c s IH]; [reflexivity|].
  simpl. rewrite utf8_decode_char, IH. reflexivity.
Qed.

Lemma url_char_props (c : ascii) :
  url_char c = true ->
  c <> "#"%char /\ c <> "?"%char /\ c <> "&"%char /\ c <> "="%char /\ c <> "+"%char /\
  is_tab_or_newline c = false.
Proof. destruct c as [[] [] [] [] [] [] [] []]; cbn; intros H; try discriminate H; repeat split; discriminate. Qed.

Lemma encode_char_url_chars (c : ascii) : forallb url_char (encode_char c) = true.
Proof. destruct c as [[] [] [] [] [] [] [] []]; reflexivity. Qed.

Lemma encodeURIComponent_url_chars (s : jstr) : forallb url_char (encodeURIComponent s) = true.
Proof.
  induction s as [|c s IH]; [reflexivity|]. unfold encodeURIComponent in *. simpl.
  rewrite forallb_app, encode_char_url_chars, IH. reflexivity.
Qed.

Lemma js_String_unreserved (n : Z) : forallb is_unreserved (js_String n) = true.
Proof.
  apply forallb_forall. intros c Hc. destruct (js_String_chars n c Hc) as [->|(d & Hd & ->)];
    [reflexivity|]. unfold is_digit in Hd.
  destruct (digit_cases d Hd) as [->|[->|[->|[->|[->|[->|[->|[->|[->| ->]]]]]]]]]; reflexivity.
Qed.

Lemma encodeURIComponent_unreserved (x : jstr) :
  forallb is_unreserved x = true -> encodeURIComponent x = x.
Proof.
  induction x as [|c x IH]; [reflexivity|]. simpl. intros H. apply andb_prop in H as [Hc Hx].
  unfold encodeURIComponent in *. simpl. rewrite IH by exact Hx. unfold encode_char. rewrite Hc.
  reflexivity.
Qed.

Lemma form_decode_unreserved (x : jstr) : forallb is_unreserved x = true -> form_decode x = Some x.
Proof.
  intros H. rewrite <- (encodeURIComponent_unreserved x H) at 1. apply form_decode_encodeURIComponent.
Qed.

Lemma unreserved_url_chars (x : jstr) : forallb is_unreserved x = true -> forallb url_char x = true.
Proof.
  intros H. apply forallb_forall. intros c Hc. unfold url_char.
  rewrite (proj1 (forallb_forall _ _) H c Hc). reflexivity.
Qed.

Lemma url_chars_notin (x : jstr) (c : ascii) :
  forallb url_char x = true -> url_char c = false -> ~ In c x.
Proof. intros H Hc Hin. rewrite (proj1 (forallb_forall _ _) H c Hin) in Hc. discriminate. Qed.

Lemma take_until_app (c : ascii) (x y : jstr) : ~ In c x -> take_until c (x ++ y) = x ++ take_until c y.
Proof.
  induction x as [|d x IH]; intros H; [reflexivity|]. simpl.
  destruct (Ascii.eqb_spec d c) as [->|Hd]; [destruct H; left; reflexivity|].
  rewrite IH; [reflexivity|]. intros Hx. apply H. right. exact Hx.
Qed.

Lemma split_on_app (sep : ascii) (x y : jstr) :
  ~ In sep x -> split_on sep (x ++ sep :: y) = x :: split_on sep y.
Proof.
  induction x as [|d x IH]; intros H; simpl.
  - rewrite Ascii.eqb_refl. reflexivity.
  - destruct (Ascii.eqb_spec d sep) as [->|Hd]; [destruct H; left; reflexivity|].
    rewrite IH; [reflexivity|]. intros Hx. apply H. right. exact Hx.
Qed.

Lemma split_on_notin (sep : ascii) (x : jstr) : ~ In sep x -> split_on sep x = [x].
Proof.
  induction x as [|d x IH]; intros H; simpl; [reflexivity|].
  destruct (Ascii.eqb_spec d sep) as [->|Hd]; [destruct H; left; reflexivity|].
  rewrite IH; [reflexivity|]. intros Hx. apply H. right. exact Hx.
Qed.

Lemma split_first_app (sep : ascii) (x y : jstr) :
  ~ In sep x -> split_first sep (x ++ sep :: y) = (x, Some y).
Proof.
  induction x as [|d x IH]; intros H; simpl.
  - rewrite Ascii.eqb_refl. reflexivity.
  - destruct (Ascii.eqb_spec d sep) as [->|Hd]; [destruct H; left; reflexivity|].
    rewrite IH; [reflexivity|]. intros Hx. apply H. right. exact Hx.
Qed.

Lemma url_query_of_parts (D E B : jstr) :
  forallb url_char D = true -> forallb url_char E = true -> forallb url_char B = true ->
  url_query (lit "/api/train-cars?limit=" ++ lit "50" ++ lit "&offset=" ++ D ++ lit "&search=" ++ E ++
             lit "&groupByMarriage=" ++ B) =
  (lit "limit" ++ "="%char :: lit "50") ++ "&"%char ::
  ((lit "offset" ++ "="%char :: D) ++ "&"%char ::
   ((lit "search" ++ "="%char :: E) ++ "&"%char :: (lit "groupByMarriage" ++ "="%char :: B))).
Proof.
  intros HD HE HB. unfold url_query.
  rewrite forallb_filter_id.
  2: { rewrite !forallb_app. rewrite !andb_true_iff. repeat split; try reflexivity;
       apply forallb_forall; intros c Hc;
       [pose proof (proj1 (forallb_forall _ _) HD c Hc) as H|
        pose proof (proj1 (forallb_forall _ _) HE c Hc) as H|
        pose proof (proj1 (forallb_forall _ _) HB c Hc) as H];
       apply url_char_props in H; rewrite (proj2 (proj2 (proj2 (proj2 (proj2 H))))); reflexivity. }
  assert (Hh : forall x, forallb url_char x = true -> ~ In "#"%char x)
    by (intros x Hx; apply url_chars_notin; [exact Hx|reflexivity]).
  rewrite (take_until_app _ (lit "/api/train-cars?limit=")) by (cbn; intuition discriminate).
  rewrite (take_until_app _ (lit "50")) by (cbn; intuition discriminate).
  rewrite (take_until_app _ (lit "&offset=")) by (cbn; intuition discriminate).
  rewrite (take_until_app _ D) by (apply Hh, HD).
  rewrite (take_until_app _ (lit "&search=")) by (cbn; intuition discriminate).
  rewrite (take_until_app _ E) by (apply Hh, HE).
  rewrite (take_until_app _ (lit "&groupByMarriage=")) by (cbn; intuition discriminate).
  rewrite <- (app_nil_r B) at 1. rewrite (take_until_app _ B) by (apply Hh, HB).
  rewrite app_nil_r. reflexivity.
Qed.

Lemma form_pairs_of_parts (D E B : jstr) :
  forallb url_char D = true -> forallb url_char E = true -> forallb url_char B = true ->
  form_pairs ((lit "limit" ++ "="%char :: lit "50") ++ "&"%char ::
              ((lit "offset" ++ "="%char :: D) ++ "&"%char ::
               ((lit "search" ++ "="%char :: E) ++ "&"%char :: (lit "groupByMarriage" ++ "="%char :: B)))) =
  [(form_decode (lit "limit"), form_decode (lit "50")); (form_decode (lit "offset"), form_decode D);
   (form_decode (lit "search"), form_decode E); (form_decode (lit "groupByMarriage"), form_decode B)].
Proof.
  intros HD HE HB.
  assert (Ha : forall x, forallb url_char x = true -> ~ In "&"%char x)
    by (intros x Hx; apply url_chars_notin; [exact Hx|reflexivity]).
  assert (He : forall x, forallb url_char x = true -> ~ In "="%char x)
    by (intros x Hx; apply url_chars_notin; [exact Hx|reflexivity]).
  assert (Hp : forall n v, ~ In "&"%char n -> ~ In "&"%char v -> ~ In "&"%char (n ++ "="%char :: v)).
  { intros n v Hn Hv H. apply in_app_iff in H as [H|[H|H]]; [exact (Hn H)|discriminate H|exact (Hv H)]. }
  unfold form_pairs.
  rewrite split_on_app by (apply Hp; [cbn; intuition discriminate|cbn; intuition discriminate]).
  rewrite split_on_app by (apply Hp; [cbn; intuition discriminate|apply Ha, HD]).
  rewrite split_on_app by (apply Hp; [cbn; intuition discriminate|apply Ha, HE]).
  rewrite split_on_notin by (apply Hp; [cbn; intuition discriminate|apply Ha, HB]).
  rewrite forallb_filter_id by (destruct (lit "limit"), (lit "offset"), (lit "search"), (lit "groupByMarriage"); reflexivity).
  cbn [map].
  rewrite !split_first_app by (cbn; intuition discriminate).
  reflexivity.
Qed.

(** X5 (loadData): the worker's [URLSearchParams] reads back from the URL
    built by [loadData] exactly the page, search term and grouping flag it
    was built from, whatever the search term holds. *)
Theorem loadData_url_round_trip (page : Z) (searchTerm : jstr) (groupByMarriage : bool) :
  searchParams_of_url (loadData_url page searchTerm groupByMarriage) =
  Some (loadData_request page searchTerm groupByMarriage).
Proof.
  assert (HD : forallb url_char (js_String (page * pageSize)) = true)
    by apply unreserved_url_chars, js_String_unreserved.
  assert (HB : forallb url_char (js_bool_String groupByMarriage) = true)
    by (destruct groupByMarriage; reflexivity).
  unfold searchParams_of_url, loadData_url.
  change (js_String pageSize) with (lit "50").
  rewrite (url_query_of_parts _ _ _ HD (encodeURIComponent_url_chars searchTerm) HB).
  rewrite (form_pairs_of_parts _ _ _ HD (encodeURIComponent_url_chars searchTerm) HB).
  rewrite form_decode_encodeURIComponent.
  rewrite (form_decode_unreserved (js_String (page * pageSize))) by apply js_String_unreserved.
  rewrite (form_decode_unreserved (js_bool_String groupByMarriage)) by (destruct groupByMarriage; reflexivity).
  reflexivity.
Qed.

End RequestUrl.

(** ** [updateStats] against the page shown *)

Section PageStats.

Lemma js_String_nonempty (n : Z) : js_String n <> [].
Proof.
  unfold js_String. destruct (n <? 0) eqn:E; [discriminate|]. apply Z.ltb_ge in E.
  destruct (js_String_nonneg n E) as (ds & Hds & _ & Hne & _). unfold js_String in Hds.
  replace (n <? 0) with false in Hds by (symmetry; apply Z.ltb_ge; lia). rewrite Hds.
  destruct ds; [congruence|discriminate].
Qed.

Lemma loadData_request_read (page : Z) (searchTerm : jstr) (groupByMarriage : bool) :
  0 <= page ->
  let req := loadData_request page searchTerm groupByMarriage in
  effective_limit (q_limit req) = Num pageSize /\
  effective_offset (q_offset req) = Num (page * pageSize) /\
  is_grouped req = groupByMarriage /\ str_or (q_search req) [] = searchTerm.
Proof.
  intros Hp req. split; [reflexivity|]. split; [|split].
  - unfold req, loadData_request, effective_offset. simpl q_offset.
    destruct (js_String (page * pageSize)) eqn:E; [exfalso; exact (js_String_nonempty _ E)|].
    unfold str_or. rewrite <- E. rewrite parseInt_js_String by (unfold pageSize; lia).
    simpl. f_equal. unfold pageSize. lia.
  - destruct groupByMarriage; reflexivity.
  - destruct searchTerm; reflexivity.
Qed.

(** X6 (loadData, getTrainCars): for a page number [page >= 0] the
    endpoint asks for [pageSize] rows from offset [page * pageSize], with
    the grouping flag and the search term [loadData] was called with. *)
Theorem loadData_page_request (page : Z) (searchTerm : jstr) (groupByMarriage : bool) :
  0 <= page ->
  exists req, searchParams_of_url (loadData_url page searchTerm groupByMarriage) = Some req /\
    effective_limit (q_limit req) = Num pageSize /\
    effective_offset (q_offset req) = Num (page * pageSize) /\
    is_grouped req = groupByMarriage /\ str_or (q_search req) [] = searchTerm.
Proof.
  intros Hp. exists (loadData_request page searchTerm groupByMarriage).
  split; [apply loadData_url_round_trip|]. apply loadData_request_read, Hp.
Qed.

Lemma loadData_page_request_witness :
  0 <= 2 /\
  exists req, searchParams_of_url (loadData_url 2 (lit "a b&c=d") true) = Some req /\
    effective_limit (q_limit req) = Num pageSize /\
    effective_offset (q_offset req) = Num (2 * pageSize) /\
    is_grouped req = true /\ str_or (q_search req) [] = lit "a b&c=d".
Proof. split; [lia|]. apply loadData_page_request. lia. Defined.

Lemma length_indexed {A} (l : list A) : length (indexed l) = length l.
Proof. unfold indexed. rewrite length_zip_with, length_seq. lia. Qed.

Lemma availableMarriages_empty_search (vm : gmap Z (TrainCar * nat)) (ms : list Marriage) :
  availableMarriages vm [] ms = indexed ms.
Proof.
  unfold availableMarriages. apply forallb_filter_id. apply forallb_forall. intros [i m] _. reflexivity.
Qed.

Lemma length_availableMarriages (vm : gmap Z (TrainCar * nat)) (s : jstr) (ms : list Marriage) :
  (length (availableMarriages vm s ms) <= length ms)%nat.
Proof.
  unfold availableMarriages. rewrite <- (length_indexed ms). apply filter_length_le.
Qed.

(** The count [displayData] leaves: the number of kept marriages on
    non-empty data, the previous count on empty data. *)
Lemma displayGrouped_count (rows : list TrainCar) (ms : list Marriage) (currentSearch : jstr)
    (currentPage pageSize filteredMarriagesCount : nat) :
  fst (displayGrouped rows ms currentSearch currentPage pageSize filteredMarriagesCount) =
  match rows with
  | [] => filteredMarriagesCount
  | _ => length (availableMarriages (build_vehicleMap rows) (toLowerCase currentSearch) ms)
  end.
Proof. destruct rows; reflexivity. Qed.

(** X7 (updateStats, displayData): in the grouped view, after
    [displayData] has shown a non-empty page of data, the total shown is
    the number of marriages left by the search, and the shown range
    [start]-[end] has as many items as the page of marriages
    [displayData] renders. *)
Theorem grouped_stats_match_page (rows : list TrainCar) (ms : list Marriage) (currentSearch : jstr)
    (filteredMarriagesCount : nat) (totalRecords currentPage : Z) :
  0 <= currentPage -> rows <> [] ->
  let avail := availableMarriages (build_vehicleMap rows) (toLowerCase currentSearch) ms in
  let count := fst (displayGrouped rows ms currentSearch (Z.to_nat currentPage) 50
                      filteredMarriagesCount) in
  let st := updateStats true (Some ms) currentSearch (Z.of_nat count) totalRecords currentPage in
  st_totalItems st = Z.of_nat (length avail) /\
  Z.of_nat (length (firstn 50 (skipn (Z.to_nat currentPage * 50) avail))) =
    Z.max 0 (st_end st - st_start st + 1).
Proof.
  intros Hp Hrows avail count st.
  assert (Hc : count = length avail).
  { unfold count. rewrite displayGrouped_count. destruct rows; [congruence|reflexivity]. }
  assert (Ht : st_totalItems st = Z.of_nat (length avail)).
  { unfold st, updateStats. simpl. destruct currentSearch as [|c s] eqn:Es; [|rewrite Hc; reflexivity].
    unfold avail. simpl. rewrite availableMarriages_empty_search, length_indexed. reflexivity. }
  split; [exact Ht|].
  assert (He : st_end st = Z.min ((currentPage + 1) * pageSize) (st_totalItems st)) by reflexivity.
  assert (Hs : st_start st = currentPage * pageSize + 1) by reflexivity.
  rewrite He, Hs, Ht. unfold pageSize.
  rewrite length_firstn, length_skipn. lia.
Qed.

Lemma grouped_stats_match_page_witness :
  0 <= 0 /\ left_join (train_cars sample_db) (train_models sample_db) <> [] /\
  let rows := left_join (train_cars sample_db) (train_models sample_db) in
  let ms := car_marriages sample_db in
  let avail := availableMarriages (build_vehicleMap rows) (toLowerCase (lit "spirit")) ms in
  let count := fst (displayGrouped rows ms (lit "spirit") (Z.to_nat 0) 50 7) in
  let st := updateStats true (Some ms) (lit "spirit") (Z.of_nat count) 4 0 in
  st_totalItems st = Z.of_nat (length avail) /\
  Z.of_nat (length (firstn 50 (skipn (Z.to_nat 0 * 50) avail))) = Z.max 0 (st_end st - st_start st + 1).
Proof.
  assert (H0 : 0 <= 0) by lia.
  assert (H1 : left_join (train_cars sample_db) (train_models sample_db) <> []) by discriminate.
  exact (conj H0 (conj H1 (grouped_stats_match_page _ _ _ 7 4 0 H0 H1))).
Defined.

(** X8 (updateStats, nextPage): in the grouped view the Next button is
    enabled only when [nextPage] moves to the next page, provided the
    count [displayData] leaves is not stale: the data shown is non-empty,
    or the count kept from before is at most the number of marriages.
    Without a search term in the grouped view, and always in the
    ungrouped view, it is enabled exactly when [nextPage] moves on. *)
Theorem next_button_loads_next_page (rows : list TrainCar) (ms : list Marriage)
    (currentSearch : jstr) (filteredMarriagesCount : nat) (totalRecords currentPage : Z) :
  let f := Z.of_nat (fst (displayGrouped rows ms currentSearch (Z.to_nat currentPage) 50
                            filteredMarriagesCount)) in
  ((rows <> [] \/ (filteredMarriagesCount <= length ms)%nat) ->
   nextDisabled (updateStats true (Some ms) currentSearch f totalRecords currentPage) = false ->
   nextPage true (Some ms) totalRecords currentPage = Some (currentPage + 1)) /\
  (currentSearch = [] ->
   nextDisabled (updateStats true (Some ms) currentSearch f totalRecords currentPage) = false <->
   nextPage true (Some ms) totalRecords currentPage = Some (currentPage + 1)) /\
  (forall marriages filteredMarriagesCount,
   nextDisabled (updateStats false marriages currentSearch filteredMarriagesCount totalRecords currentPage) = false <->
   nextPage false marriages totalRecords currentPage = Some (currentPage + 1)).
Proof.
  intros f. unfold updateStats, nextPage, pageSize. simpl nextDisabled. split; [|split].
  - intros Hfresh.
    assert (Hf : f <= Z.of_nat (length ms)).
    { unfold f. rewrite displayGrouped_count. destruct rows as [|r rs].
      - destruct Hfresh as [Hne|Hle]; [congruence|lia].
      - pose proof (length_availableMarriages
          (build_vehicleMap (r :: rs)) (toLowerCase currentSearch) ms). lia. }
    destruct (is_nonempty currentSearch); intros H; apply Z.leb_gt in H;
      (destruct ((currentPage + 1) * 50 <? Z.of_nat (length ms)) eqn:E; [reflexivity|]);
      apply Z.ltb_ge in E; lia.
  - intros ->. simpl. split.
    + intros H; apply Z.leb_gt in H.
      destruct ((currentPage + 1) * 50 <? Z.of_nat (length ms)) eqn:E; [reflexivity|].
      apply Z.ltb_ge in E; lia.
    + destruct ((currentPage + 1) * 50 <? Z.of_nat (length ms)) eqn:E; [|discriminate].
      intros _. apply Z.ltb_lt in E. apply Z.leb_gt. lia.
  - intros marriages fc. split.
    + intros H; apply Z.leb_gt in H.
      destruct ((currentPage + 1) * 50 <? totalRecords) eqn:E; [reflexivity|].
      apply Z.ltb_ge in E; lia.
    + destruct ((currentPage + 1) * 50 <? totalRecords) eqn:E; [|discriminate].
      intros _. apply Z.ltb_lt in E. apply Z.leb_gt. lia.
Qed.

(** X9 (updateStats, getTrainCars): in the ungrouped view, the endpoint
    answers a page request with a numeric total, and the shown range
    [start]-[end] has as many items as the rows it returns. *)
Theorem ungrouped_stats_match_page (db : Db) (currentPage : Z) (currentSearch : jstr)
    (b : TrainCarsResponse) (marriages : option (list Marriage)) (filteredMarriagesCount : Z) :
  NoDup (map tm_batch_id (train_models db)) -> 0 <= currentPage ->
  getTrainCars_try db (loadData_request currentPage currentSearch false) = Ok b ->
  exists totalRecords, total b = Num totalRecords /\
    let st := updateStats false marriages currentSearch filteredMarriagesCount totalRecords currentPage in
    Z.of_nat (length (data b)) = Z.max 0 (st_end st - st_start st + 1).
Proof.
  intros Hn Hp H.
  destruct (loadData_request_read currentPage currentSearch false Hp) as (Hl & Ho & Hg & Hs).
  destruct (try_ungrouped db _ b Hg H) as (l & o & Hl' & Ho' & _ & _ & Hd & Ht & _).
  rewrite Hl in Hl'. rewrite Ho in Ho'. inversion Hl'; inversion Ho'; subst l o.
  set (p := search_param (str_or (q_search (loadData_request currentPage currentSearch false)) [])) in *.
  exists (Z.of_nat (count_of db p)). split; [exact Ht|].
  assert (Hc : count_of db p = length (selected_rows db p)).
  { unfold count_of, selected_rows. destruct p; [reflexivity|].
    rewrite left_join_unique by exact Hn. rewrite length_map. reflexivity. }
  rewrite Hd, Hc. unfold updateStats. simpl st_end. simpl st_start.
  rewrite length_firstn, length_skipn, (Permutation_length (order_by_vehicle_id_perm _)).
  unfold pageSize. rewrite Z2Nat.inj_mul by lia. lia.
Qed.

Lemma ungrouped_stats_match_page_witness :
  exists b,
    NoDup (map tm_batch_id (train_models sample_db)) /\ 0 <= 0 /\
    getTrainCars_try sample_db (loadData_request 0 (lit "mark") false) = Ok b /\
    exists totalRecords, total b = Num totalRecords /\
      let st := updateStats false None (lit "mark") 0 totalRecords 0 in
      Z.of_nat (length (data b)) = Z.max 0 (st_end st - st_start st + 1).
Proof.
  eexists. split; [apply NoDup_ListNoDup; vm_compute; repeat constructor; simpl; intuition discriminate|].
  split; [lia|]. split; [vm_compute; reflexivity|].
  apply (ungrouped_stats_match_page sample_db 0 (lit "mark")).
  - apply NoDup_ListNoDup. vm_compute. repeat constructor; simpl; intuition discriminate.
  - lia.
  - vm_compute. reflexivity.
Defined.

End PageStats.

(** ** The worker entry point *)

Section Worker.

Lemma lower_char_idem (c : ascii) : lower_char (lower_char c) = lower_char c.
Proof. destruct c as [[] [] [] [] [] [] [] []]; reflexivity. Qed.

Lemma toLowerCase_idem (s : jstr) : toLowerCase (toLowerCase s) = toLowerCase s.
Proof. unfold toLowerCase. rewrite map_map. apply map_ext. apply lower_char_idem. Qed.

Lemma headers_get_set_same (hs : list (jstr * jstr)) (n v : jstr) :
  headers_get (headers_set hs n v) n = Some v.
Proof.
  unfold headers_get, headers_set. rewrite List.filter_app.
  replace (List.filter (header_is n) (List.filter (fun h => negb (header_is n h)) hs)) with (@nil (jstr * jstr)).
  - simpl. unfold header_is at 1. simpl. rewrite toLowerCase_idem, str_eqb_refl. reflexivity.
  - induction hs as [|h hs IH]; [reflexivity|]. simpl.
    destruct (header_is n h) eqn:E; simpl; [exact IH|]. rewrite E. exact IH.
Qed.

Lemma headers_get_set_other (hs : list (jstr * jstr)) (n v m : jstr) :
  str_eqb (toLowerCase n) (toLowerCase m) = false ->
  headers_get (headers_set hs n v) m = headers_get hs m.
Proof.
  intros Hnm. unfold headers_get, headers_set. rewrite List.filter_app.
  assert (Hl : List.filter (header_is m) [(toLowerCase n, v)] = []).
  { simpl. unfold header_is. simpl. rewrite toLowerCase_idem, Hnm. reflexivity. }
  rewrite Hl, app_nil_r.
  replace (List.filter (header_is m) (List.filter (fun h => negb (header_is n h)) hs))
    with (List.filter (header_is m) hs); [reflexivity|].
  induction hs as [|h hs IH]; [reflexivity|]. simpl.
  destruct (header_is n h) eqn:En; destruct (header_is m h) eqn:Em; simpl; rewrite ?Em, <- ?IH;
    try reflexivity.
  exfalso. unfold header_is in En, Em. apply str_eqb_eq in En, Em.
  rewrite <- En, <- Em, str_eqb_refl in Hnm. discriminate.
Qed.

Lemma addSecurityHeaders_spec (r : HttpResponse) :
  let r' := addSecurityHeaders r in
  r_status r' = r_status r /\ r_body r' = r_body r /\
  headers_get (r_headers r') (lit "X-Content-Type-Options") = Some (lit "nosniff") /\
  headers_get (r_headers r') (lit "X-Frame-Options") = Some (lit "DENY") /\
  headers_get (r_headers r') (lit "Referrer-Policy") = Some (lit "strict-origin-when-cross-origin") /\
  headers_get (r_headers r') (lit "Content-Type") = headers_get (r_headers r) (lit "Content-Type").
Proof.
  intros r'. unfold r', addSecurityHeaders. simpl. split; [reflexivity|]. split; [reflexivity|].
  split; [rewrite !headers_get_set_other by reflexivity; apply headers_get_set_same|].
  split; [rewrite headers_get_set_other by reflexivity; apply headers_get_set_same|].
  split; [apply headers_get_set_same|].
  rewrite !headers_get_set_other by reflexivity. reflexivity.
Qed.

(** X10 (fetch, addSecurityHeaders): every response of the worker carries
    the three security headers, and its Content-Type is the one of its
    route. *)
Theorem fetch_security_headers (assets : Assets) (db : Db) (request : HttpRequest) :
  let r := fetch assets db request in
  headers_get (r_headers r) (lit "X-Content-Type-Options") = Some (lit "nosniff") /\
  headers_get (r_headers r) (lit "X-Frame-Options") = Some (lit "DENY") /\
  headers_get (r_headers r) (lit "Referrer-Policy") = Some (lit "strict-origin-when-cross-origin") /\
  headers_get (r_headers r) (lit "Content-Type") =
    Some (if str_eqb (url_pathname request) (lit "/api/train-cars") then lit "application/json"
          else if str_eqb (url_pathname request) (lit "/styles.css") then lit "text/css; charset=utf-8"
          else if str_eqb (url_pathname request) (lit "/app.js") then lit "application/javascript; charset=utf-8"
          else lit "text/html; charset=utf-8").
Proof.
  intros r. unfold r, fetch.
  destruct (str_eqb (url_pathname request) (lit "/api/train-cars"));
    [destruct (api_rejected request)|];
    [| |destruct (str_eqb (url_pathname request) (lit "/styles.css"));
        [|destruct (str_eqb (url_pathname request) (lit "/app.js"))]];
    match goal with |- context [addSecurityHeaders ?x] =>
      destruct (addSecurityHeaders_spec x) as (_ & _ & H1 & H2 & H3 & H4) end;
    (split; [exact H1|]); (split; [exact H2|]); (split; [exact H3|]); rewrite H4; reflexivity.
Qed.


Lemma prefixb_spec (t s : jstr) : prefixb t s = true -> exists u, s = t ++ u.
Proof.
  revert s. induction t as [|c t IH]; intros s H; [exists s; reflexivity|].
  destruct s as [|d s]; [discriminate|]. simpl in H. apply andb_prop in H as [Hc H].
  apply Ascii.eqb_eq in Hc as ->. destruct (IH s H) as (u & ->). exists u. reflexivity.
Qed.

(** X11 (fetch): an API request whose Origin and Referer headers are absent,
    empty or on https at the request's host is accepted; outside
    development hosts, only such requests are accepted. *)
Theorem api_origin_policy (request : HttpRequest) :
  let host := request_host request in
  let origin := headers_get (req_headers request) (lit "Origin") in
  let referer := headers_get (req_headers request) (lit "Referer") in
  let same_site :=
    (origin = None \/ origin = Some [] \/ origin = Some (lit "https://" ++ host)) /\
    (referer = None \/ referer = Some [] \/
     exists path, referer = Some (lit "https://" ++ host ++ lit "/" ++ path)) in
  (same_site -> api_rejected request = false) /\
  (isDevelopment host = false -> api_rejected request = false -> same_site).
Proof.
  intros host origin referer same_site. unfold api_rejected. fold host origin referer. split.
  - intros [Ho Hr]. apply orb_false_iff. split.
    + destruct Ho as [ -> | [ -> | -> ] ]; [reflexivity|reflexivity|].
      destruct (lit "https://" ++ host) as [|c o] eqn:E; [discriminate E|].
      rewrite str_eqb_refl. destruct (isDevelopment host); reflexivity.
    + destruct Hr as [ -> | [ -> | (path & ->) ] ]; [reflexivity|reflexivity|].
      pose proof (prefixb_app (lit "https://" ++ host ++ lit "/") path) as Hs.
      rewrite <- !app_assoc in Hs.
      destruct (lit "https://" ++ host ++ lit "/" ++ path) as [|c r] eqn:E; [discriminate E|].
      unfold startsWith. rewrite Hs. destruct (isDevelopment host); reflexivity.
  - intros Hdev H. rewrite Hdev in H. apply orb_false_iff in H as [Ho Hr]. split.
    + destruct origin as [[|c o]|]; [right; left; reflexivity| |left; reflexivity].
      right; right. apply negb_false_iff, str_eqb_eq in Ho. rewrite Ho. reflexivity.
    + destruct referer as [[|c r]|]; [right; left; reflexivity| |left; reflexivity].
      right; right. apply negb_false_iff in Hr. unfold startsWith in Hr.
      destruct (prefixb_spec _ _ Hr) as (path & Hp). exists path. rewrite Hp, <- !app_assoc. reflexivity.
Qed.

(** X12 (fetch, loadData): a rejected API request gets a 403 answer that
    does not depend on the store, and [loadData] shows the unauthorized
    error for it. *)
Theorem rejected_api_request_403 (assets : Assets) (db1 db2 : Db) (request : HttpRequest) :
  str_eqb (url_pathname request) (lit "/api/train-cars") = true -> api_rejected request = true ->
  fetch assets db1 request = fetch assets db2 request /\
  r_status (fetch assets db1 request) = 403 /\
  loadData_view (fetch assets db1 request) = Some (ErrorView unauthorized_error).
Proof.
  intros Hp Hr. unfold fetch. rewrite Hp, Hr. split; [reflexivity|]. split; reflexivity.
Qed.

Lemma rejected_api_request_403_witness :
  str_eqb (url_pathname cross_site_request) (lit "/api/train-cars") = true /\
  api_rejected cross_site_request = true /\
  fetch {| htmlText := []; cssText := []; jsText := [] |} sample_db cross_site_request =
  fetch {| htmlText := []; cssText := []; jsText := [] |} failing_db cross_site_request /\
  r_status (fetch {| htmlText := []; cssText := []; jsText := [] |} sample_db cross_site_request) = 403 /\
  loadData_view (fetch {| htmlText := []; cssText := []; jsText := [] |} sample_db cross_site_request) =
    Some (ErrorView unauthorized_error).
Proof.
  split; [reflexivity|]. split; [vm_compute; reflexivity|].
  apply rejected_api_request_403; [reflexivity|vm_compute; reflexivity].
Defined.



End Worker.

(** ** Page assembly *)

Section PageAssembly.

Lemma includes_false_iff (s t : jstr) :
  includes s t = false <-> forall i, prefixb t (skipn i s) = false.
Proof.
  induction s as [|c s IH]; simpl.
  - rewrite orb_false_r. split; [intros H i; rewrite skipn_nil; exact H|intros H; exact (H 0%nat)].
  - rewrite orb_false_iff, IH. split.
    + intros [H0 H] [|i]; [exact H0|exact (H i)].
    + intros H. split; [exact (H 0%nat)|intros i; exact (H (S i))].
Qed.

Lemma prefixb_app_cases (t u y : jstr) :
  prefixb t (u ++ y) = true ->
  prefixb t u = true \/
  (u = firstn (length u) t /\ (length u < length t)%nat /\ prefixb (skipn (length u) t) y = true).
Proof.
  revert t. induction u as [|d u IH]; intros t H.
  - destruct t as [|c t]; [left; reflexivity|]. right. simpl. split; [reflexivity|]. split; [lia|exact H].
  - destruct t as [|c t]; [left; reflexivity|]. simpl in H. apply andb_prop in H as [Hc H].
    apply Ascii.eqb_eq in Hc as ->. destruct (IH t H) as [H'|(E & Hl & H')].
    + left. simpl. rewrite Ascii.eqb_refl. exact H'.
    + right. simpl. split; [rewrite <- E; reflexivity|]. split; [lia|exact H'].
Qed.

Lemma no_occurrence_before (x y p : jstr) :
  includes x p = false ->
  (forall k, (1 <= k < length p)%nat -> (k <= length x)%nat ->
     skipn (length x - k) x = firstn k p -> prefixb (skipn k p) y = false) ->
  forall i, (i < length x)%nat -> prefixb p (skipn i x ++ y) = false.
Proof.
  intros Hx Hs i Hi. destruct (prefixb p (skipn i x ++ y)) eqn:E; [|reflexivity]. exfalso.
  destruct (prefixb_app_cases _ _ _ E) as [H|(Eu & Hl & H)].
  - rewrite (proj1 (includes_false_iff x p) Hx i) in H. discriminate.
  - rewrite length_skipn in Eu, Hl, H.
    assert (Hk : (length x - (length x - i) = i)%nat) by lia.
    rewrite (Hs (length x - i)%nat) in H; [discriminate|lia|lia|rewrite Hk; exact Eu].
Qed.

Lemma includes_app_false (x y p : jstr) :
  includes x p = false -> includes y p = false ->
  (forall k, (1 <= k < length p)%nat -> (k <= length x)%nat ->
     skipn (length x - k) x = firstn k p -> prefixb (skipn k p) y = false) ->
  includes (x ++ y) p = false.
Proof.
  intros Hx Hy Hs. apply includes_false_iff. intros i.
  destruct (decide (i < length x)%nat) as [Hi|Hi].
  - rewrite skipn_app. replace (i - length x)%nat with 0%nat by lia. simpl.
    apply (no_occurrence_before x y p Hx Hs i Hi).
  - rewrite skipn_app, skipn_all2 by lia. simpl. apply includes_false_iff, Hy.
Qed.

Lemma indexOf_app (x y p : jstr) :
  (forall i, (i < length x)%nat -> prefixb p (skipn i x ++ y) = false) ->
  prefixb p y = true -> indexOf (x ++ y) p = Some (length x).
Proof.
  induction x as [|c x IH]; intros H Hy; simpl.
  - destruct y; simpl in *; rewrite Hy; reflexivity.
  - pose proof (H 0%nat ltac:(simpl; lia)) as H0. simpl in H0. rewrite H0.
    rewrite IH; [reflexivity| |exact Hy].
    intros i Hi. apply (H (S i)). simpl. lia.
Qed.

Lemma prefixb_firstn (n : nat) (t : jstr) : prefixb (firstn n t) t = true.
Proof.
  revert t. induction n as [|n IH]; intros [|c t]; simpl; try reflexivity.
  rewrite Ascii.eqb_refl. apply IH.
Qed.

(** Straddling occurrences ruled out by the left part. *)
Lemma straddle_left (x y p : jstr) :
  forallb (fun k => negb ((k <=? length x)%nat && str_eqb (skipn (length x - k) x) (firstn k p)))
          (seq 1 (length p - 1)) = true ->
  forall k, (1 <= k < length p)%nat -> (k <= length x)%nat ->
     skipn (length x - k) x = firstn k p -> prefixb (skipn k p) y = false.
Proof.
  intros H k Hk Hkx E. exfalso. rewrite forallb_forall in H.
  specialize (H k ltac:(apply in_seq; lia)). rewrite E, str_eqb_refl in H.
  apply Nat.leb_le in Hkx. rewrite Hkx in H. discriminate.
Qed.

(** Straddling occurrences ruled out by the start of the right part. *)
Lemma straddle_right (x w r p : jstr) :
  forallb (fun k => negb (prefixb (skipn k p) w || prefixb w (skipn k p))) (seq 1 (length p - 1)) = true ->
  forall k, (1 <= k < length p)%nat -> (k <= length x)%nat ->
     skipn (length x - k) x = firstn k p -> prefixb (skipn k p) (w ++ r) = false.
Proof.
  intros H k Hk _ _. rewrite forallb_forall in H. specialize (H k ltac:(apply in_seq; lia)).
  destruct (prefixb (skipn k p) (w ++ r)) eqn:E; [|reflexivity].
  destruct (prefixb_app_cases _ _ _ E) as [H'|(Eu & _ & _)].
  - rewrite H' in H. discriminate.
  - assert (Hw : prefixb w (skipn k p) = true) by (rewrite Eu at 1; apply prefixb_firstn).
    rewrite Hw, orb_true_r in H. discriminate.
Qed.

Lemma GetSubstitution_cons (matched before after : jstr) (c : ascii) (r : jstr) :
  c <> "$"%char ->
  GetSubstitution matched before after (c :: r) = c :: GetSubstitution matched before after r.
Proof.
  destruct c as [[] [] [] [] [] [] [] []]; intros Hc; try reflexivity.
  exfalso. apply Hc. reflexivity.
Qed.

Lemma GetSubstitution_plain_app (matched before after : jstr) (r1 r2 : jstr) :
  ~ In "$"%char r1 ->
  GetSubstitution matched before after (r1 ++ r2) = r1 ++ GetSubstitution matched before after r2.
Proof.
  induction r1 as [|c r1 IH]; intros H; [reflexivity|].
  change ((c :: r1) ++ r2) with (c :: (r1 ++ r2)).
  rewrite GetSubstitution_cons by (intros ->; apply H; left; reflexivity).
  rewrite IH; [reflexivity|]. intros Hin. apply H. right. exact Hin.
Qed.

Lemma GetSubstitution_plain (matched before after : jstr) (r : jstr) :
  ~ In "$"%char r -> GetSubstitution matched before after r = r.
Proof.
  intros H. rewrite <- (app_nil_r r) at 1. rewrite GetSubstitution_plain_app by exact H.
  apply app_nil_r.
Qed.

Lemma GetSubstitution_matched (matched before after r : jstr) :
  GetSubstitution matched before after ("$"%char :: "&"%char :: r) =
  matched ++ GetSubstitution matched before after r.
Proof. reflexivity. Qed.

Lemma replace_at (x y pattern replacement : jstr) :
  (forall i, (i < length x)%nat -> prefixb pattern (skipn i x ++ pattern ++ y) = false) ->
  replace (x ++ pattern ++ y) pattern replacement =
    x ++ GetSubstitution pattern x y replacement ++ y.
Proof.
  intros H. unfold replace. rewrite indexOf_app by (assumption || apply prefixb_app).
  rewrite firstn_app, firstn_all, Nat.sub_diag, firstn_O, app_nil_r.
  rewrite skipn_app, skipn_all2 by lia. simpl. rewrite skipn_app.
  replace (length x + length pattern - length x)%nat with (length pattern) by lia.
  rewrite skipn_all, Nat.sub_diag. reflexivity.
Qed.

Lemma getHTML_shape (a b c css js : jstr) :
  includes a link_tag = false -> includes a script_tag = false ->
  includes b script_tag = false -> includes css script_tag = false -> ~ In "$"%char css ->
  getHTML (a ++ link_tag ++ b ++ script_tag ++ c) css js =
    (a ++ lit "<style>" ++ css ++ lit "</style>" ++ b) ++
    GetSubstitution script_tag (a ++ lit "<style>" ++ css ++ lit "</style>" ++ b) c
                    (lit "<script>" ++ js ++ lit "</script>") ++ c.
Proof.
  intros Hal Has Hbs Hcs Hd. unfold getHTML.
  rewrite replace_at.
  2: { apply no_occurrence_before; [exact Hal|]. apply straddle_right. vm_compute. reflexivity. }
  rewrite GetSubstitution_plain.
  2: { rewrite !in_app_iff. intros [H|[H|H]]; [cbn in H; intuition discriminate|exact (Hd H)|
         cbn in H; intuition discriminate]. }
  assert (E : a ++ (lit "<style>" ++ css ++ lit "</style>") ++ b ++ script_tag ++ c =
              (a ++ lit "<style>" ++ css ++ lit "</style>" ++ b) ++ script_tag ++ c)
    by (rewrite <- !app_assoc; reflexivity).
  rewrite E. clear E. rewrite replace_at; [reflexivity|].
  apply no_occurrence_before; [|apply straddle_right; vm_compute; reflexivity].
  apply includes_app_false; [exact Has| |apply straddle_right; vm_compute; reflexivity].
  apply includes_app_false; [reflexivity| |apply straddle_left; vm_compute; reflexivity].
  apply includes_app_false; [exact Hcs| |apply straddle_right; vm_compute; reflexivity].
  apply includes_app_false; [reflexivity|exact Hbs|apply straddle_left; vm_compute; reflexivity].
Qed.

(** X14 (getHTML): when the template's first stylesheet link and first
    script tag are the expected ones and the assets hold no ['$'], the page
    is the template with the CSS and the JavaScript inlined in their
    place. *)
Theorem getHTML_inlines_assets (a b c css js : jstr) :
  includes a link_tag = false -> includes a script_tag = false ->
  includes b script_tag = false -> includes css script_tag = false ->
  ~ In "$"%char css -> ~ In "$"%char js ->
  getHTML (a ++ link_tag ++ b ++ script_tag ++ c) css js =
    a ++ lit "<style>" ++ css ++ lit "</style>" ++ b ++ lit "<script>" ++ js ++ lit "</script>" ++ c.
Proof.
  intros Hal Has Hbs Hcs Hdc Hdj. rewrite getHTML_shape by assumption.
  rewrite GetSubstitution_plain.
  2: { rewrite !in_app_iff. intros [H|[H|H]]; [cbn in H; intuition discriminate|exact (Hdj H)|
         cbn in H; intuition discriminate]. }
  rewrite <- !app_assoc. reflexivity.
Qed.

(** X15 (getHTML): a ['$&'] in the JavaScript bundle is not copied
    literally: [replace] substitutes the matched script tag for it. *)
Theorem getHTML_dollar_ampersand (a b c css p q : jstr) :
  includes a link_tag = false -> includes a script_tag = false ->
  includes b script_tag = false -> includes css script_tag = false ->
  ~ In "$"%char css -> ~ In "$"%char p -> ~ In "$"%char q ->
  getHTML (a ++ link_tag ++ b ++ script_tag ++ c) css (p ++ "$"%char :: "&"%char :: q) =
    a ++ lit "<style>" ++ css ++ lit "</style>" ++ b ++ lit "<script>" ++ p ++ script_tag ++ q ++
    lit "</script>" ++ c.
Proof.
  intros Hal Has Hbs Hcs Hdc Hdp Hdq. rewrite getHTML_shape by assumption.
  rewrite GetSubstitution_plain_app by (cbn; intuition discriminate).
  rewrite <- (app_assoc p), (GetSubstitution_plain_app _ _ _ p) by exact Hdp.
  change (("$"%char :: "&"%char :: q) ++ lit "</script>") with ("$"%char :: "&"%char :: (q ++ lit "</script>")).
  rewrite GetSubstitution_matched.
  rewrite GetSubstitution_plain.
  2: { rewrite !in_app_iff. intros [H|H]; [exact (Hdq H)|cbn in H; intuition discriminate]. }
  rewrite <- !app_assoc. reflexivity.
Qed.

Lemma getHTML_inlines_assets_witness :
  includes (lit "<html><head>") link_tag = false /\ includes (lit "<html><head>") script_tag = false /\
  includes (lit "</head><body>") script_tag = false /\ includes (lit "body{margin:0}") script_tag = false /\
  ~ In "$"%char (lit "body{margin:0}") /\ ~ In "$"%char (lit "let x=1;") /\
  getHTML (lit "<html><head>" ++ link_tag ++ lit "</head><body>" ++ script_tag ++ lit "</body></html>")
          (lit "body{margin:0}") (lit "let x=1;") =
    lit "<html><head>" ++ lit "<style>" ++ lit "body{margin:0}" ++ lit "</style>" ++ lit "</head><body>" ++
    lit "<script>" ++ lit "let x=1;" ++ lit "</script>" ++ lit "</body></html>".
Proof.
  assert (H1 : includes (lit "<html><head>") link_tag = false) by (vm_compute; reflexivity).
  assert (H2 : includes (lit "<html><head>") script_tag = false) by (vm_compute; reflexivity).
  assert (H3 : includes (lit "</head><body>") script_tag = false) by (vm_compute; reflexivity).
  assert (H4 : includes (lit "body{margin:0}") script_tag = false) by (vm_compute; reflexivity).
  assert (H5 : ~ In "$"%char (lit "body{margin:0}")) by (cbn; intuition discriminate).
  assert (H6 : ~ In "$"%char (lit "let x=1;")) by (cbn; intuition discriminate).
  exact (conj H1 (conj H2 (conj H3 (conj H4 (conj H5 (conj H6
           (getHTML_inlines_assets _ _ _ _ _ H1 H2 H3 H4 H5 H6))))))).
Defined.

Lemma getHTML_dollar_ampersand_witness :
  includes (lit "<html><head>") link_tag = false /\ includes (lit "<html><head>") script_tag = false /\
  includes (lit "</head><body>") script_tag = false /\ includes (lit "b{}") script_tag = false /\
  ~ In "$"%char (lit "b{}") /\ ~ In "$"%char (lit "t.replace(/x/, '") /\ ~ In "$"%char (lit "!');") /\
  getHTML (lit "<html><head>" ++ link_tag ++ lit "</head><body>" ++ script_tag ++ lit "</body></html>")
          (lit "b{}") (lit "t.replace(/x/, '" ++ "$"%char :: "&"%char :: lit "!');") =
    lit "<html><head>" ++ lit "<style>" ++ lit "b{}" ++ lit "</style>" ++ lit "</head><body>" ++
    lit "<script>" ++ lit "t.replace(/x/, '" ++ script_tag ++ lit "!');" ++ lit "</script>" ++
    lit "</body></html>".
Proof.
  assert (H1 : includes (lit "<html><head>") link_tag = false) by (vm_compute; reflexivity).
  assert (H2 : includes (lit "<html><head>") script_tag = false) by (vm_compute; reflexivity).
  assert (H3 : includes (lit "</head><body>") script_tag = false) by (vm_compute; reflexivity).
  assert (H4 : includes (lit "b{}") script_tag = false) by (vm_compute; reflexivity).
  assert (H5 : ~ In "$"%char (lit "b{}")) by (cbn; intuition discriminate).
  assert (H6 : ~ In "$"%char (lit "t.replace(/x/, '")) by (cbn; intuition discriminate).
  assert (H7 : ~ In "$"%char (lit "!');")) by (cbn; intuition discriminate).
  exact (conj H1 (conj H2 (conj H3 (conj H4 (conj H5 (conj H6 (conj H7
           (getHTML_dollar_ampersand _ _ _ _ _ _ H1 H2 H3 H4 H5 H6 H7)))))))).
Defined.

End PageAssembly.
